(** * The menu reducer of [src/components/menu/menu.tsx]

    A shallow embedding of the state machine behind the dropdown menu:
    [calculateActiveItemIndex], the table [reducers] and [stateReducer],
    followed by the properties of the resolver and of each transition.

    Conventions of the embedding.
    - A JavaScript [number] used as an index is a [Z]; the sentinel [-1] of
      [Array.prototype.findIndex] and [indexOf] is kept as it is.
    - [number | null] is [option Z], [None] standing for [null].
    - A JavaScript string is a [string]; [+] is [append] and
      [startsWith] is [String.prefix].
    - [item.dataRef] is the address of a React ref cell; the cell's
      [current] record lives in a [Heap] that every reducer reads at the
      time of the call, because the owning item mutates it in place.
    - An item object [{ id, dataRef }] carries the address it was
      allocated at, so that [indexOf], which compares references, can be
      modelled. *)

From Stdlib Require Import ZArith String Ascii Bool Lia.
From stdpp Require Import base list strings.

Local Open Scope Z_scope.

Module Menu.

(** ** Data model *)

Inductive MenuStates : Type :=
| Open
| Closed.

Inductive Focus : Type :=
| FirstItem
| PreviousItem
| NextItem
| LastItem
| SpecificItem
| Nothing.

(** The record behind [MenuItemDataRef['current']]:
    [{ textValue?: string; disabled: boolean }]. *)
Record MenuItemData : Type := mkData {
  textValue : option string;
  disabled : bool
}.

(** Address of a [React.MutableRefObject] that holds a [MenuItemData]. *)
Definition MenuItemDataRef : Type := nat.

(** The store of ref cells: [h r] is [r.current]. *)
Definition Heap : Type := MenuItemDataRef -> MenuItemData.

(** Address of the ref cell of the button, respectively of the item list.
    The reducers only copy these handles. *)
Definition HandleRef : Type := nat.

(** An element of [state.items].  [item_obj] is the address of the object
    literal; item objects are never mutated after their creation, so two
    values of this type denote the same JavaScript object exactly when
    they are equal as records. *)
Record Item : Type := mkItem {
  item_obj : nat;
  id : string;
  dataRef : MenuItemDataRef
}.

Record StateDefinition : Type := mkState {
  menuState : MenuStates;
  buttonRef : HandleRef;
  itemsRef : HandleRef;
  items : list Item;
  searchQuery : string;
  previousActiveIndex : option Z;
  activeItemIndex : option Z
}.

Inductive Actions : Type :=
| ToggleMenu
| CloseMenu
| OpenMenu
| GoToItem (focus : Focus) (target : option string)
| Search (value : string)
| ClearSearch
| SetButtonRef (ref : HandleRef)
| SetItemsRef (ref : HandleRef)
| RegisterItem (ident : string) (ref : MenuItemDataRef)
| UnregisterItem (ident : string).

#[global] Instance Item_eq_dec : EqDecision Item.
Proof. solve_decision. Defined.

(** ** JavaScript array primitives *)

(** [l.length] *)
Definition len {A} (l : list A) : Z := Z.of_nat (length l).

(** [l[i]] for a number [i]: [None] is [undefined]. *)
Definition at_index {A} (l : list A) (i : Z) : option A :=
  if i <? 0 then None else l !! Z.to_nat i.

(** The scan of [Array.prototype.findIndex], [i] being the index of the
    head of [l] in the array the scan started on. *)
Fixpoint findIndex_from {A} (p : A -> Z -> bool) (l : list A) (i : Z) : Z :=
  match l with
  | [] => -1
  | x :: l' => if p x i then i else findIndex_from p l' (i + 1)
  end.

(** [l.findIndex((item, idx, all) => p item idx all)] *)
Definition findIndex {A} (p : A -> Z -> list A -> bool) (l : list A) : Z :=
  findIndex_from (fun x i => p x i l) l 0.

(** [l.splice(idx, 1)] for an index [idx] that [findIndex] returned and that
    is not [-1]. *)
Definition splice1 {A} (l : list A) (idx : Z) : list A :=
  delete (Z.to_nat idx) l.

(** The value of [currentActiveItem] in the [UnregisterItem] reducer:
    [null], [undefined] (an index outside of the array) or an item. *)
Inductive ItemOrNothing : Type :=
| JsNull
| JsUndefined
| JsItem (it : Item).

(** [l.indexOf(v)]: the first index holding the very object [v]. *)
Definition indexOf (l : list Item) (v : ItemOrNothing) : Z :=
  match v with
  | JsItem it => findIndex (fun x _ _ => bool_decide (x = it)) l
  | JsNull | JsUndefined => -1
  end.

(** Modelled from the spec: [match] of [utils/match], which menu.tsx
    imports and which is not among the sources.  It is the dispatch of
    the spec's "exhaustive match" over a discriminated value: it selects
    the entry of the lookup table keyed by the value (and calls it when
    the entry is a function).  A lookup table over an enumeration is a
    function on the enumeration. *)
Definition match_ {K V} (value : K) (lookup : K -> V) : V := lookup value.

(** ** The active-item resolver *)

Definition enabled (h : Heap) (item : Item) : bool :=
  negb (disabled (h (dataRef item))).

Definition calculateActiveItemIndex
    (h : Heap) (state : StateDefinition) (focus : Focus)
    (target : option string) : option Z :=
  if len (items state) <=? 0 then None
  else
    let items := items state in
    let activeItemIndex := default (-1) (activeItemIndex state) in
    let ensureValidValue (value : option Z) : option Z :=
      if bool_decide (value = Some (-1)) then Menu.activeItemIndex state
      else value in
    ensureValidValue
      (match_ focus (fun f =>
         match f with
         | FirstItem => Some (findIndex (fun item _ _ => enabled h item) items)
         | PreviousItem =>
             let idx :=
               findIndex
                 (fun item idx all =>
                    if len all - idx - 1 >=? activeItemIndex then false
                    else enabled h item)
                 (reverse items) in
             if idx =? -1 then Some idx else Some (len items - 1 - idx)
         | NextItem =>
             Some (findIndex
                     (fun item idx _ =>
                        if idx <=? activeItemIndex then false
                        else enabled h item)
                     items)
         | LastItem =>
             let idx := findIndex (fun item _ _ => enabled h item)
                          (reverse items) in
             if idx =? -1 then Some idx else Some (len items - 1 - idx)
         | SpecificItem =>
             Some (findIndex
                     (fun item _ _ => bool_decide (Some (id item) = target))
                     items)
         | Nothing => None
         end)).

(** ** The reducers *)

(** What a reducer hands back: the state object it was given, or a new
    object literal. *)
Inductive Returned : Type :=
| SameState
| NewState (next : StateDefinition).

Definition reduce_ToggleMenu (state : StateDefinition) : Returned :=
  NewState
    {| menuState := match_ (menuState state) (fun m =>
                      match m with Open => Closed | Closed => Open end);
       buttonRef := buttonRef state;
       itemsRef := itemsRef state;
       items := items state;
       searchQuery := searchQuery state;
       previousActiveIndex := previousActiveIndex state;
       activeItemIndex := activeItemIndex state |}.

Definition reduce_CloseMenu (state : StateDefinition) : Returned :=
  NewState
    {| menuState := Closed;
       buttonRef := buttonRef state;
       itemsRef := itemsRef state;
       items := items state;
       searchQuery := searchQuery state;
       previousActiveIndex := previousActiveIndex state;
       activeItemIndex := activeItemIndex state |}.

Definition reduce_OpenMenu (state : StateDefinition) : Returned :=
  NewState
    {| menuState := Open;
       buttonRef := buttonRef state;
       itemsRef := itemsRef state;
       items := items state;
       searchQuery := searchQuery state;
       previousActiveIndex := previousActiveIndex state;
       activeItemIndex := activeItemIndex state |}.

Definition reduce_GoToItem (h : Heap) (state : StateDefinition)
    (focus : Focus) (target : option string) : Returned :=
  let activeItemIndex := calculateActiveItemIndex h state focus target in
  if bool_decide (searchQuery state = EmptyString)
     && bool_decide (previousActiveIndex state = Menu.activeItemIndex state)
     && bool_decide (Menu.activeItemIndex state = activeItemIndex)
  then SameState
  else
    NewState
      {| menuState := menuState state;
         buttonRef := buttonRef state;
         itemsRef := itemsRef state;
         items := items state;
         searchQuery := EmptyString;
         previousActiveIndex := Menu.activeItemIndex state;
         activeItemIndex := activeItemIndex |}.

(** [textValue?.startsWith(searchQuery) && !disabled] as a condition. *)
Definition search_hit (h : Heap) (searchQuery : string) (item : Item) : bool :=
  match textValue (h (dataRef item)) with
  | Some text => String.prefix searchQuery text
  | None => false
  end
  && negb (disabled (h (dataRef item))).

Definition reduce_Search (h : Heap) (state : StateDefinition)
    (value : string) : Returned :=
  let searchQuery := (searchQuery state ++ value)%string in
  let found := findIndex (fun item _ _ => search_hit h searchQuery item)
                 (items state) in
  if (found =? -1) || bool_decide (Some found = activeItemIndex state)
  then
    NewState
      {| menuState := menuState state;
         buttonRef := buttonRef state;
         itemsRef := itemsRef state;
         items := items state;
         searchQuery := searchQuery;
         previousActiveIndex := previousActiveIndex state;
         activeItemIndex := activeItemIndex state |}
  else
    NewState
      {| menuState := menuState state;
         buttonRef := buttonRef state;
         itemsRef := itemsRef state;
         items := items state;
         searchQuery := searchQuery;
         previousActiveIndex := activeItemIndex state;
         activeItemIndex := Some found |}.

Definition reduce_ClearSearch (state : StateDefinition) : Returned :=
  NewState
    {| menuState := menuState state;
       buttonRef := buttonRef state;
       itemsRef := itemsRef state;
       items := items state;
       searchQuery := EmptyString;
       previousActiveIndex := previousActiveIndex state;
       activeItemIndex := activeItemIndex state |}.

Definition reduce_SetButtonRef (state : StateDefinition) (ref : HandleRef)
    : Returned :=
  NewState
    {| menuState := menuState state;
       buttonRef := ref;
       itemsRef := itemsRef state;
       items := items state;
       searchQuery := searchQuery state;
       previousActiveIndex := previousActiveIndex state;
       activeItemIndex := activeItemIndex state |}.

Definition reduce_SetItemsRef (state : StateDefinition) (ref : HandleRef)
    : Returned :=
  NewState
    {| menuState := menuState state;
       buttonRef := buttonRef state;
       itemsRef := ref;
       items := items state;
       searchQuery := searchQuery state;
       previousActiveIndex := previousActiveIndex state;
       activeItemIndex := activeItemIndex state |}.

(** [alloc] is the address at which the runtime places the object literal
    [{ id: action.id, dataRef: action.dataRef }]. *)
Definition reduce_RegisterItem (alloc : nat) (state : StateDefinition)
    (ident : string) (ref : MenuItemDataRef) : Returned :=
  NewState
    {| menuState := menuState state;
       buttonRef := buttonRef state;
       itemsRef := itemsRef state;
       items := items state ++ [mkItem alloc ident ref];
       searchQuery := searchQuery state;
       previousActiveIndex := previousActiveIndex state;
       activeItemIndex := activeItemIndex state |}.

Definition reduce_UnregisterItem (state : StateDefinition) (ident : string)
    : Returned :=
  let nextItems := items state in
  let currentActiveItem :=
    match activeItemIndex state with
    | Some i =>
        match at_index nextItems i with
        | Some it => JsItem it
        | None => JsUndefined
        end
    | None => JsNull
    end in
  let idx := findIndex (fun a _ _ => bool_decide (id a = ident)) nextItems in
  let nextItems := if negb (idx =? -1) then splice1 nextItems idx
                   else nextItems in
  NewState
    {| menuState := menuState state;
       buttonRef := buttonRef state;
       itemsRef := itemsRef state;
       items := nextItems;
       searchQuery := searchQuery state;
       previousActiveIndex := activeItemIndex state;
       activeItemIndex :=
         if bool_decide (Some idx = activeItemIndex state) then None
         else
           match currentActiveItem with
           | JsNull => None
           | _ => Some (indexOf nextItems currentActiveItem)
           end |}.

(** The table [reducers], keyed by the action's type, applied to the state
    and the action. *)
Definition reducers (h : Heap) (alloc : nat) (action : Actions)
    (state : StateDefinition) : Returned :=
  match action with
  | ToggleMenu => reduce_ToggleMenu state
  | CloseMenu => reduce_CloseMenu state
  | OpenMenu => reduce_OpenMenu state
  | GoToItem focus target => reduce_GoToItem h state focus target
  | Search value => reduce_Search h state value
  | ClearSearch => reduce_ClearSearch state
  | SetButtonRef ref => reduce_SetButtonRef state ref
  | SetItemsRef ref => reduce_SetItemsRef state ref
  | RegisterItem ident ref => reduce_RegisterItem alloc state ident ref
  | UnregisterItem ident => reduce_UnregisterItem state ident
  end.

Definition stateReducer (h : Heap) (alloc : nat) (state : StateDefinition)
    (action : Actions) : Returned :=
  match_ action (fun a => reducers h alloc a state).

Definition defaultState : StateDefinition :=
  {| menuState := Closed;
     buttonRef := 0%nat;
     itemsRef := 1%nat;
     items := [];
     searchQuery := EmptyString;
     previousActiveIndex := None;
     activeItemIndex := None |}.

(** [React.useReducer(stateReducer, defaultState)]: the state after a
    dispatch is whatever the reducer returned. *)
Definition dispatch (h : Heap) (alloc : nat) (state : StateDefinition)
    (action : Actions) : StateDefinition :=
  match stateReducer h alloc state action with
  | SameState => state
  | NewState next => next
  end.

(** The states of a mounted menu.  Between two dispatches the items may
    rewrite their ref cells, so every step reads a heap of its own; a new
    item object gets an address that no live item object has. *)
Inductive reachable : StateDefinition -> Prop :=
| reachable_default : reachable defaultState
| reachable_dispatch (h : Heap) (alloc : nat) (state : StateDefinition)
    (action : Actions) :
    reachable state ->
    alloc ∉ item_obj <$> items state ->
    reachable (dispatch h alloc state action).

(** The data model's invariant on [activeItemIndex]. *)
Definition active_index_valid (state : StateDefinition) : Prop :=
  match activeItemIndex state with
  | None => True
  | Some i => 0 <= i < len (items state)
  end.

(** ** Sample heaps, traces and states *)

(** Every item enabled, respectively disabled, none with a label. *)
Definition heap_all_enabled : Heap := fun _ => mkData None false.
Definition heap_all_disabled : Heap := fun _ => mkData None true.

(** Cells 0, 1 and 2 hold the labels of three enabled items. *)
Definition heap_names : Heap := fun r =>
  mkData (Some match r with
               | 0%nat => "alice"%string
               | 1%nat => "bob"%string
               | _ => "charlie"%string
               end) false.

(** A trace of dispatches under a heap that does not change meanwhile; the
    allocator hands out increasing addresses. *)
Fixpoint run (h : Heap) (alloc : nat) (actions : list Actions)
    (state : StateDefinition) : StateDefinition :=
  match actions with
  | [] => state
  | action :: rest => run h (S alloc) rest (dispatch h alloc state action)
  end.

Definition register_abc : list Actions :=
  [RegisterItem "a" 0%nat; RegisterItem "b" 1%nat; RegisterItem "c" 2%nat].

(** Three items, the last one active. *)
Definition state_abc_last : StateDefinition :=
  run heap_all_enabled 0 (register_abc ++ [GoToItem LastItem None])
    defaultState.

(** A state value of the declared type that no trace produces: an active
    index next to an empty array. *)
Definition state_empty_active : StateDefinition :=
  {| menuState := Open;
     buttonRef := 0%nat;
     itemsRef := 1%nat;
     items := [];
     searchQuery := EmptyString;
     previousActiveIndex := Some 0;
     activeItemIndex := Some 0 |}.

(** One item, made active while it was enabled. *)
Definition state_one_active : StateDefinition :=
  run heap_all_enabled 0
    [RegisterItem "a" 0%nat; GoToItem FirstItem None] defaultState.

(** The items [a], [b], [c] whose cells hold the labels of [heap_names],
    nothing active yet. *)
Definition state_names : StateDefinition :=
  run heap_names 0 register_abc defaultState.

(** Two items registered under the same id, the second one active. *)
Definition state_twins : StateDefinition :=
  run heap_all_enabled 0
    [RegisterItem "x" 0%nat; RegisterItem "x" 1%nat; GoToItem LastItem None]
    defaultState.

(** A state value whose array holds one item object twice, the second
    occurrence being the active one; no trace produces it either. *)
Definition state_repeated_object : StateDefinition :=
  {| menuState := Open;
     buttonRef := 0%nat;
     itemsRef := 1%nat;
     items := [mkItem 0%nat "a" 0%nat; mkItem 0%nat "a" 0%nat];
     searchQuery := EmptyString;
     previousActiveIndex := None;
     activeItemIndex := Some 1 |}.

(** The first two cells belong to disabled items. *)
Definition heap_two_disabled : Heap := fun r =>
  mkData None (r <? 2)%nat.

(** The labels of [heap_names], bob being disabled. *)
Definition heap_bob_disabled : Heap := fun r =>
  mkData (textValue (heap_names r)) (r =? 1)%nat.

(** ** The event handlers of the components

    A handler is embedded as the list of effects it performs, in order.
    [d.nextFrame(cb)] and [searchDisposables.setTimeout(cb, ms)] schedule
    a callback; the callback is kept as the commands it will run. *)

(** The values of [enum Key]. *)
Definition Key_Space : string := " ".
Definition Key_Enter : string := "Enter".
Definition Key_Escape : string := "Escape".
Definition Key_Backspace : string := "Backspace".
Definition Key_ArrowUp : string := "ArrowUp".
Definition Key_ArrowRight : string := "ArrowRight".
Definition Key_ArrowDown : string := "ArrowDown".
Definition Key_ArrowLeft : string := "ArrowLeft".
Definition Key_Home : string := "Home".
Definition Key_End : string := "End".
Definition Key_Tab : string := "Tab".

(** The fields of a keyboard event that the handlers read. *)
Record KeyboardEvent : Type := mkKey {
  key : string;
  shiftKey : bool
}.

Inductive Command : Type :=
| Dispatch (action : Actions)       (* dispatch(action) *)
| PreventDefault                    (* event.preventDefault() *)
| DisposeSearch                     (* searchDisposables.dispose() *)
| FocusItems                        (* itemsRef.current?.focus() *)
| FocusButton                       (* state.buttonRef.current?.focus() *)
| ClickElement (ident : string).    (* document.getElementById(id)?.click() *)

Inductive Effect : Type :=
| Now (command : Command)
| NextFrame (callback : list Command)
| SetTimeout (callback : list Command) (ms : Z).

(** How a handler ends: it returns, or a property of [undefined] is read. *)
Inductive Completion : Type :=
| Normal
| TypeError.

(** [handleKeyDown] of [Button]. *)
Definition Button_handleKeyDown (event : KeyboardEvent) : list Effect :=
  if (key event =? Key_Space)%string || (key event =? Key_Enter)%string
     || (key event =? Key_ArrowDown)%string
  then [Now PreventDefault;
        Now (Dispatch OpenMenu);
        NextFrame [FocusItems; Dispatch (GoToItem FirstItem None)]]
  else if (key event =? Key_ArrowUp)%string
  then [Now (Dispatch OpenMenu);
        NextFrame [FocusItems; Dispatch (GoToItem LastItem None)]]
  else [].

(** [handleKeyDown] of [Items]; [state] is the state of the render the
    handler was created in. *)
Definition Items_handleKeyDown (state : StateDefinition)
    (event : KeyboardEvent) : list Effect * Completion :=
  let start := [Now DisposeSearch] in
  if (key event =? Key_Enter)%string then
    match activeItemIndex state with
    | Some i =>
        match at_index (items state) i with
        | Some item =>
            (start ++ [Now (Dispatch CloseMenu);
                       NextFrame [ClickElement (id item)]], Normal)
        | None => (start ++ [Now (Dispatch CloseMenu)], TypeError)
        end
    | None => (start ++ [Now (Dispatch CloseMenu)], Normal)
    end
  else if (key event =? Key_Space)%string then (start, Normal)
  else if (key event =? Key_ArrowDown)%string then
    (start ++ [Now (Dispatch (GoToItem NextItem None))], Normal)
  else if (key event =? Key_ArrowUp)%string then
    (start ++ [Now (Dispatch (GoToItem PreviousItem None))], Normal)
  else if (key event =? Key_ArrowRight)%string then (start, Normal)
  else if (key event =? Key_ArrowLeft)%string then (start, Normal)
  else if (key event =? Key_Home)%string then
    (start ++ [Now (Dispatch (GoToItem FirstItem None))], Normal)
  else if (key event =? Key_End)%string then
    (start ++ [Now (Dispatch (GoToItem LastItem None))], Normal)
  else if (key event =? Key_Escape)%string then
    (start ++ [Now (Dispatch CloseMenu); NextFrame [FocusButton]], Normal)
  else if (key event =? Key_Tab)%string then
    if shiftKey event then (start ++ [Now (Dispatch CloseMenu)], Normal)
    else (start ++ [Now (Dispatch CloseMenu)], Normal)
  else if (String.length (key event) =? 1)%nat then
    (start ++ [Now (Dispatch (Search (key event)));
               SetTimeout [Dispatch ClearSearch] 350], Normal)
  else (start, Normal).

(** The attribute [aria-activedescendant] of [Items]: [None] is
    [undefined]. *)
Definition Items_activedescendant (state : StateDefinition)
    : option string :=
  match activeItemIndex state with
  | None => None
  | Some i => id <$> at_index (items state) i
  end.

(** The constant [active] of [Item]: [None] stands for the [TypeError] of
    reading [.id] of [undefined]. *)
Definition Item_active (state : StateDefinition) (ident : string)
    : option bool :=
  match activeItemIndex state with
  | Some i =>
      match at_index (items state) i with
      | Some item => Some (bool_decide (id item = ident))
      | None => None
      end
  | None => Some false
  end.

(** [handlePointerEnter] and [handlePointerLeave] of [Item], for the
    item's [disabled] prop and id. *)
Definition Item_handlePointerEnter (disabled : bool) (ident : string)
    : list Effect :=
  if disabled then []
  else [Now (Dispatch (GoToItem SpecificItem (Some ident)))].

Definition Item_handlePointerLeave (disabled : bool) : list Effect :=
  if disabled then [] else [Now (Dispatch (GoToItem Nothing None))].

(** [word] of the test utilities: one key event per character. *)
Definition word (input : string) : list KeyboardEvent :=
  (fun c => mkKey (String c EmptyString) false)
    <$> list_ascii_of_string input.

(** The actions a handler dispatches before it returns, and those its
    next-frame callbacks dispatch. *)
Definition command_action (command : Command) : list Actions :=
  match command with
  | Dispatch action => [action]
  | _ => []
  end.

Definition now_actions (effects : list Effect) : list Actions :=
  effects ≫= fun effect =>
    match effect with
    | Now command => command_action command
    | _ => []
    end.

Definition frame_actions (effects : list Effect) : list Actions :=
  effects ≫= fun effect =>
    match effect with
    | NextFrame callback => callback ≫= command_action
    | _ => []
    end.

(** A sequence of [keydown] events on the item list, each handled in the
    render of the state the previous one left, no timer firing
    meanwhile. *)
Fixpoint keyDown_all (h : Heap) (events : list KeyboardEvent)
    (state : StateDefinition) : StateDefinition :=
  match events with
  | [] => state
  | event :: rest =>
      keyDown_all h rest
        (run h 0 (now_actions (Items_handleKeyDown state event).1) state)
  end.

(** [input] without its space characters. *)
Fixpoint without_spaces (input : string) : string :=
  match input with
  | EmptyString => EmptyString
  | String c rest =>
      if Ascii.eqb c " "%char then without_spaces rest
      else String c (without_spaces rest)
  end.

(** ** Proof steps *)

(** Expose the reducer that a dispatch of a given action runs. *)
Ltac unfold_dispatch := unfold dispatch, stateReducer, match_, reducers.
Ltac unfold_reducer r := unfold_dispatch; unfold r.

(** ** Facts about the array primitives *)

Section FindIndex.
Context {A : Type}.
Implicit Types (p : A -> Z -> bool) (l : list A) (i : Z).

Lemma findIndex_from_none p l i :
  (forall k x, l !! k = Some x -> p x (i + Z.of_nat k) = false) ->
  findIndex_from p l i = -1.
Proof.
  revert i. induction l as [|y l IH]; intros i Hall; simpl; [done|].
  pose proof (Hall 0%nat y eq_refl) as Hy.
  replace (i + Z.of_nat 0) with i in Hy by lia. rewrite Hy.
  apply IH. intros k x Hk.
  replace (i + 1 + Z.of_nat k) with (i + Z.of_nat (S k)) by lia.
  by apply Hall.
Qed.

Lemma findIndex_from_found p l i k x :
  l !! k = Some x ->
  p x (i + Z.of_nat k) = true ->
  (forall j y, (j < k)%nat -> l !! j = Some y ->
               p y (i + Z.of_nat j) = false) ->
  findIndex_from p l i = i + Z.of_nat k.
Proof.
  revert i k. induction l as [|y l IH]; intros i k Hk Hp Hbefore;
    [done|].
  destruct k as [|k].
  - injection Hk as ->.
    assert (p x i = true) as Hx by (rewrite <- Hp; f_equal; lia).
    simpl. rewrite Hx. lia.
  - assert (p y i = false) as Hy.
    { replace i with (i + Z.of_nat 0) by lia.
      apply Hbefore; [lia | done]. }
    simpl. rewrite Hy.
    rewrite (IH (i + 1) k Hk).
    + lia.
    + rewrite <- Hp. f_equal. lia.
    + intros j z Hj Hz.
      replace (i + 1 + Z.of_nat j) with (i + Z.of_nat (S j)) by lia.
      apply Hbefore; [lia | done].
Qed.

(** The scan returns [-1], or the first index whose element passes. *)
Lemma findIndex_from_cases p l i :
  0 <= i ->
  (findIndex_from p l i = -1 /\
   forall k x, l !! k = Some x -> p x (i + Z.of_nat k) = false)
  \/ (exists k x,
        findIndex_from p l i = i + Z.of_nat k /\
        l !! k = Some x /\
        p x (i + Z.of_nat k) = true /\
        forall j y, (j < k)%nat -> l !! j = Some y ->
                    p y (i + Z.of_nat j) = false).
Proof.
  revert i. induction l as [|y l IH]; intros i Hi; simpl.
  - left. split; [done|]. intros k x Hk. by destruct k.
  - destruct (p y i) eqn:Hy.
    + right. exists 0%nat, y. repeat split.
      * lia.
      * by replace (i + Z.of_nat 0) with i by lia.
      * intros j z Hj. lia.
    + destruct (IH (i + 1)) as [[Hnone Hall]|(k & x & Hr & Hk & Hp & Hb)];
        [lia | |].
      * left. split; [done|]. intros [|k] x Hk; simpl in Hk.
        -- injection Hk as <-. by replace (i + Z.of_nat 0) with i by lia.
        -- replace (i + Z.of_nat (S k)) with (i + 1 + Z.of_nat k) by lia.
           by apply Hall.
      * right. exists (S k), x. repeat split.
        -- lia.
        -- done.
        -- by replace (i + Z.of_nat (S k)) with (i + 1 + Z.of_nat k)
             by lia.
        -- intros [|j] z Hj Hz; simpl in Hz.
           ++ injection Hz as <-.
              by replace (i + Z.of_nat 0) with i by lia.
           ++ replace (i + Z.of_nat (S j)) with (i + 1 + Z.of_nat j)
                by lia.
              apply Hb; [lia | done].
Qed.

Lemma findIndex_none (q : A -> Z -> list A -> bool) l :
  (forall k x, l !! k = Some x -> q x (Z.of_nat k) l = false) ->
  findIndex q l = -1.
Proof.
  intros Hall. unfold findIndex. apply findIndex_from_none.
  intros k x Hk. by apply Hall.
Qed.

Lemma findIndex_found (q : A -> Z -> list A -> bool) l k x :
  l !! k = Some x ->
  q x (Z.of_nat k) l = true ->
  (forall j y, (j < k)%nat -> l !! j = Some y ->
               q y (Z.of_nat j) l = false) ->
  findIndex q l = Z.of_nat k.
Proof.
  intros Hk Hq Hb. unfold findIndex.
  by rewrite (findIndex_from_found _ l 0 k x).
Qed.

Lemma findIndex_cases (q : A -> Z -> list A -> bool) l :
  (findIndex q l = -1 /\
   forall k x, l !! k = Some x -> q x (Z.of_nat k) l = false)
  \/ (exists k x,
        findIndex q l = Z.of_nat k /\
        l !! k = Some x /\
        q x (Z.of_nat k) l = true /\
        forall j y, (j < k)%nat -> l !! j = Some y ->
                    q y (Z.of_nat j) l = false).
Proof.
  unfold findIndex.
  destruct (findIndex_from_cases (fun x i => q x i l) l 0) as [H|H];
    [lia | by left | by right].
Qed.

(** [findIndex] answers [-1] or a position of the array. *)
Lemma findIndex_range (q : A -> Z -> list A -> bool) l :
  findIndex q l = -1 \/ 0 <= findIndex q l < len l.
Proof.
  destruct (findIndex_cases q l) as [[-> _]|(k & x & -> & Hk & _)];
    [by left | right].
  apply lookup_lt_Some in Hk. unfold len. lia.
Qed.
End FindIndex.

(** ** The resolver *)

Lemma calculateActiveItemIndex_empty h state focus target :
  items state = [] ->
  calculateActiveItemIndex h state focus target = None.
Proof. intros E. unfold calculateActiveItemIndex. by rewrite E. Qed.

Lemma len_nonempty {A} (l : list A) : l <> [] -> (len l <=? 0) = false.
Proof.
  destruct l; [done|]. intros _. unfold len.
  apply Z.leb_gt. rewrite length_cons. lia.
Qed.

(** After [GoToItem], the active index is the resolver's answer, whichever
    branch the reducer takes. *)
Lemma dispatch_GoToItem_active h alloc state focus target :
  activeItemIndex (dispatch h alloc state (GoToItem focus target))
  = calculateActiveItemIndex h state focus target.
Proof.
  unfold_reducer reduce_GoToItem.
  destruct (bool_decide (searchQuery state = EmptyString)); simpl; [|done].
  destruct (bool_decide (previousActiveIndex state = activeItemIndex state));
    simpl; [|done].
  case_bool_decide; simpl; done.
Qed.

Lemma resolve_next_none h state target :
  items state <> [] ->
  (forall k it, items state !! k = Some it ->
     default (-1) (activeItemIndex state) < Z.of_nat k ->
     disabled (h (dataRef it)) = true) ->
  calculateActiveItemIndex h state NextItem target = activeItemIndex state.
Proof.
  intros Hne Hall. unfold calculateActiveItemIndex, match_.
  rewrite len_nonempty by done.
  rewrite findIndex_none; [by rewrite bool_decide_eq_true_2|].
  intros k it Hk. destruct (Z.leb_spec (Z.of_nat k)
    (default (-1) (activeItemIndex state))); [done|].
  unfold enabled. by rewrite (Hall k it).
Qed.

Lemma resolve_previous_none h state target :
  items state <> [] ->
  (forall k it, items state !! k = Some it ->
     Z.of_nat k < default (-1) (activeItemIndex state) ->
     disabled (h (dataRef it)) = true) ->
  calculateActiveItemIndex h state PreviousItem target
  = activeItemIndex state.
Proof.
  intros Hne Hall. unfold calculateActiveItemIndex, match_.
  rewrite len_nonempty by done.
  rewrite findIndex_none; [by rewrite bool_decide_eq_true_2|].
  intros k it Hk.
  pose proof (lookup_lt_Some _ _ _ Hk) as Hlt.
  rewrite length_reverse in Hlt.
  rewrite reverse_lookup in Hk by done.
  unfold len. rewrite length_reverse.
  destruct (Z.geb_spec (Z.of_nat (length (items state)) - Z.of_nat k - 1)
    (default (-1) (activeItemIndex state))) as [|Hlt']; [done|].
  unfold enabled. rewrite (Hall _ it Hk); [done|lia].
Qed.

(** No wrap-around, for any state value whose item list is not empty or
    whose active index is none: [GoToItem] with [NextItem] leaves
    [activeItemIndex] as it is when every item after the active index is
    disabled, and [GoToItem] with [PreviousItem] leaves it as it is when
    every item before the active index is disabled.  The active index
    counts as [-1] when nothing is active. *)
Lemma goto_next_previous_no_wrap h alloc state target :
  items state <> [] \/ activeItemIndex state = None ->
  ((forall k it, items state !! k = Some it ->
      default (-1) (activeItemIndex state) < Z.of_nat k ->
      disabled (h (dataRef it)) = true) ->
   calculateActiveItemIndex h state NextItem target = activeItemIndex state
   /\ activeItemIndex (dispatch h alloc state (GoToItem NextItem target))
      = activeItemIndex state)
  /\
  ((forall k it, items state !! k = Some it ->
      Z.of_nat k < default (-1) (activeItemIndex state) ->
      disabled (h (dataRef it)) = true) ->
   calculateActiveItemIndex h state PreviousItem target
   = activeItemIndex state
   /\ activeItemIndex (dispatch h alloc state (GoToItem PreviousItem target))
      = activeItemIndex state).
Proof.
  intros Hshape. rewrite !dispatch_GoToItem_active.
  destruct (decide (items state = [])) as [E|Hne].
  - destruct Hshape as [|Hnone]; [done|].
    rewrite !calculateActiveItemIndex_empty, Hnone by done. done.
  - split; intros Hall.
    + by rewrite resolve_next_none.
    + by rewrite resolve_previous_none.
Qed.

(** The side condition matters only outside of the invariant on
    [activeItemIndex]: on a state value with an active index next to an
    empty array, which no trace produces, the guard on [items.length]
    answers [null]. *)
Example goto_next_resets_on_empty_items :
  (forall k it, items state_empty_active !! k = Some it ->
     default (-1) (activeItemIndex state_empty_active) < Z.of_nat k ->
     disabled (heap_all_enabled (dataRef it)) = true)
  /\ activeItemIndex state_empty_active = Some 0
  /\ calculateActiveItemIndex heap_all_enabled state_empty_active
       NextItem None = None
  /\ activeItemIndex (dispatch heap_all_enabled 0 state_empty_active
                        (GoToItem NextItem None)) = None
  /\ activeItemIndex (dispatch heap_all_enabled 0 state_empty_active
                        (GoToItem PreviousItem None)) = None.
Proof. repeat split. intros k it Hk. by destruct k. Qed.

(** ** Traces *)

(** What a dispatch does to the array of items. *)
Lemma dispatch_items h alloc state action :
  items (dispatch h alloc state action) = items state
  \/ (exists ident ref,
        items (dispatch h alloc state action)
        = items state ++ [mkItem alloc ident ref])
  \/ (exists k, items (dispatch h alloc state action)
                = delete k (items state)).
Proof.
  destruct action; unfold_dispatch; simpl;
    try by left.
  - unfold reduce_GoToItem. destruct (_ && _); by left.
  - unfold reduce_Search. destruct (_ || _); by left.
  - right. left. by eexists _, _.
  - destruct (negb _); [|by left]. right. right. by eexists.
Qed.

Lemma run_reachable h actions : forall alloc state,
  reachable state ->
  Forall (fun it => (item_obj it < alloc)%nat) (items state) ->
  reachable (run h alloc actions state).
Proof.
  induction actions as [|action rest IH]; intros alloc state Hr Hbelow;
    simpl; [done|].
  apply IH.
  - apply reachable_dispatch; [done|].
    intros (it & Hit & Hin)%list_elem_of_fmap.
    rewrite Forall_forall in Hbelow. specialize (Hbelow it Hin). lia.
  - assert (Forall (fun it => (item_obj it < S alloc)%nat) (items state))
      as Hbelow' by (eapply Forall_impl; [done|]; simpl; lia).
    destruct (dispatch_items h alloc state action)
      as [->|[(ident & ref & ->)|(k & ->)]].
    + done.
    + apply Forall_app. split; [done|]. apply Forall_singleton. simpl. lia.
    + by apply Forall_delete.
Qed.

Lemma run_from_default_reachable h actions :
  reachable (run h 0 actions defaultState).
Proof. apply run_reachable; [constructor | constructor]. Qed.

(** The scenarios of the test suite, replayed on the embedding. *)

(** Three enabled items: the first arrow down after opening lands on the
    first item, two more reach the last one, and a further one stays. *)
Example scenario_arrow_down_stops_at_last :
  map (fun n =>
         activeItemIndex
           (run heap_all_enabled 0
              (register_abc ++ [OpenMenu; GoToItem FirstItem None]
               ++ repeat (GoToItem NextItem None) n)
              defaultState))
      [0; 1; 2; 3]%nat
  = [Some 0; Some 1; Some 2; Some 2].
Proof. reflexivity. Qed.

(** Two disabled items followed by an enabled one: opening with Enter
    lands on the third item at once, and arrow up from there stays. *)
Example scenario_first_skips_disabled :
  activeItemIndex
    (run heap_two_disabled 0
       (register_abc ++ [OpenMenu; GoToItem FirstItem None]) defaultState)
  = Some 2
  /\ activeItemIndex
       (run heap_two_disabled 0
          (register_abc ++ [OpenMenu; GoToItem FirstItem None;
                            GoToItem PreviousItem None]) defaultState)
     = Some 2.
Proof. by split. Qed.

(** alice, bob, charlie with the last item active: typing [bo] goes to
    bob and, once the buffer was cleared, typing [ali] goes to alice. *)
Example scenario_type_partial_words :
  activeItemIndex
    (run heap_names 0
       (register_abc ++ [OpenMenu; GoToItem LastItem None;
                         Search "b"; Search "o"]) defaultState)
  = Some 1
  /\ activeItemIndex
       (run heap_names 0
          (register_abc ++ [OpenMenu; GoToItem LastItem None;
                            Search "b"; Search "o"; ClearSearch;
                            Search "a"; Search "l"; Search "i"])
          defaultState)
     = Some 0.
Proof. by split. Qed.

(** A disabled bob is not found by typing [bo]: the last item stays. *)
Example scenario_search_skips_disabled :
  activeItemIndex
    (run heap_bob_disabled 0
       (register_abc ++ [OpenMenu; GoToItem LastItem None;
                         Search "b"; Search "o"]) defaultState)
  = Some 2.
Proof. reflexivity. Qed.

(** ** [FirstItem], [LastItem] and [SpecificItem] *)

Lemma ensure_index k (fallback : option Z) :
  (if bool_decide (Some (Z.of_nat k) = Some (-1)) then fallback
   else Some (Z.of_nat k)) = Some (Z.of_nat k).
Proof. rewrite bool_decide_eq_false_2; [done|]. intros [=]. lia. Qed.

Lemma resolve_first_found h state target k it :
  items state !! k = Some it ->
  disabled (h (dataRef it)) = false ->
  (forall j jt, (j < k)%nat -> items state !! j = Some jt ->
                disabled (h (dataRef jt)) = true) ->
  calculateActiveItemIndex h state FirstItem target = Some (Z.of_nat k).
Proof.
  intros Hk Hen Hbefore. unfold calculateActiveItemIndex, match_.
  rewrite len_nonempty by (intros E; by rewrite E in Hk).
  rewrite (findIndex_found _ _ k it Hk).
  - apply ensure_index.
  - unfold enabled. by rewrite Hen.
  - intros j jt Hj Hjt. unfold enabled. by rewrite (Hbefore j jt).
Qed.

Lemma resolve_last_found h state target k it :
  items state !! k = Some it ->
  disabled (h (dataRef it)) = false ->
  (forall j jt, (k < j)%nat -> items state !! j = Some jt ->
                disabled (h (dataRef jt)) = true) ->
  calculateActiveItemIndex h state LastItem target = Some (Z.of_nat k).
Proof.
  intros Hk Hen Hafter. unfold calculateActiveItemIndex, match_.
  rewrite len_nonempty by (intros E; by rewrite E in Hk).
  pose proof (lookup_lt_Some _ _ _ Hk) as Hlt.
  set (n := length (items state)) in *.
  rewrite (findIndex_found _ _ (n - S k) it).
  - destruct (Z.eqb_spec (Z.of_nat (n - S k)) (-1)) as [|_]; [lia|].
    unfold len. fold n.
    replace (Z.of_nat n - 1 - Z.of_nat (n - S k)) with (Z.of_nat k) by lia.
    apply ensure_index.
  - rewrite reverse_lookup by (fold n; lia). fold n.
    by replace (n - S (n - S k))%nat with k by lia.
  - unfold enabled. by rewrite Hen.
  - intros j jt Hj Hjt. rewrite reverse_lookup in Hjt by (fold n; lia).
    fold n in Hjt. unfold enabled.
    rewrite (Hafter (n - S j)%nat jt); [done | lia | done].
Qed.

Lemma resolve_first_last_all_disabled h state target :
  items state <> [] ->
  (forall k it, items state !! k = Some it ->
                disabled (h (dataRef it)) = true) ->
  calculateActiveItemIndex h state FirstItem target = activeItemIndex state
  /\ calculateActiveItemIndex h state LastItem target
     = activeItemIndex state.
Proof.
  intros Hne Hall. unfold calculateActiveItemIndex, match_.
  rewrite len_nonempty by done. split.
  - rewrite findIndex_none; [by rewrite bool_decide_eq_true_2|].
    intros k it Hk. unfold enabled. by rewrite (Hall k it).
  - rewrite findIndex_none; [by rewrite bool_decide_eq_true_2|].
    intros k it Hk. pose proof (lookup_lt_Some _ _ _ Hk) as Hlt.
    rewrite length_reverse in Hlt. rewrite reverse_lookup in Hk by done.
    unfold enabled. by rewrite (Hall _ it Hk).
Qed.

(** C2, as amended: [GoToItem] with [FirstItem] resolves to the index of
    the first item that is not disabled, and with [LastItem] to the index
    of the last one; on an empty array both resolve to none; on a
    non-empty array whose items are all disabled both hand back the
    current active index, which is none only when nothing was active. *)
Theorem goto_first_last_resolution h alloc state target :
  (forall focus,
     activeItemIndex (dispatch h alloc state (GoToItem focus target))
     = calculateActiveItemIndex h state focus target)
  /\ (forall k it,
        items state !! k = Some it ->
        disabled (h (dataRef it)) = false ->
        (forall j jt, (j < k)%nat -> items state !! j = Some jt ->
                      disabled (h (dataRef jt)) = true) ->
        calculateActiveItemIndex h state FirstItem target
        = Some (Z.of_nat k))
  /\ (forall k it,
        items state !! k = Some it ->
        disabled (h (dataRef it)) = false ->
        (forall j jt, (k < j)%nat -> items state !! j = Some jt ->
                      disabled (h (dataRef jt)) = true) ->
        calculateActiveItemIndex h state LastItem target
        = Some (Z.of_nat k))
  /\ (items state = [] ->
      calculateActiveItemIndex h state FirstItem target = None
      /\ calculateActiveItemIndex h state LastItem target = None)
  /\ (items state <> [] ->
      (forall k it, items state !! k = Some it ->
                    disabled (h (dataRef it)) = true) ->
      calculateActiveItemIndex h state FirstItem target
      = activeItemIndex state
      /\ calculateActiveItemIndex h state LastItem target
         = activeItemIndex state).
Proof.
  split; [intros focus; apply dispatch_GoToItem_active|].
  split; [intros k it; apply resolve_first_found|].
  split; [intros k it; apply resolve_last_found|].
  split; [|apply resolve_first_last_all_disabled].
  intros E. by rewrite !calculateActiveItemIndex_empty.
Qed.

(** C2 as stated fails on a list of disabled items when one of them is
    active: the single item below was made active while it was enabled;
    once its cell says [disabled], both intents keep index 0. *)
Lemma goto_first_last_keep_active_when_all_disabled :
  reachable state_one_active
  /\ activeItemIndex state_one_active = Some 0
  /\ (forall k it, items state_one_active !! k = Some it ->
        disabled (heap_all_disabled (dataRef it)) = true)
  /\ calculateActiveItemIndex heap_all_disabled state_one_active
       FirstItem None = Some 0
  /\ calculateActiveItemIndex heap_all_disabled state_one_active
       LastItem None = Some 0
  /\ activeItemIndex (dispatch heap_all_disabled 2 state_one_active
                        (GoToItem FirstItem None)) = Some 0.
Proof.
  split; [apply run_from_default_reachable|]. by repeat split.
Qed.

Lemma resolve_specific_found h state ident k it :
  items state !! k = Some it ->
  id it = ident ->
  (forall j jt, (j < k)%nat -> items state !! j = Some jt ->
                id jt <> ident) ->
  calculateActiveItemIndex h state SpecificItem (Some ident)
  = Some (Z.of_nat k).
Proof.
  intros Hk Hid Hbefore. unfold calculateActiveItemIndex, match_.
  rewrite len_nonempty by (intros E; by rewrite E in Hk).
  rewrite (findIndex_found _ _ k it Hk).
  - apply ensure_index.
  - apply bool_decide_eq_true_2. by rewrite Hid.
  - intros j jt Hj Hjt. apply bool_decide_eq_false_2.
    intros [=]. by eapply Hbefore.
Qed.

Lemma resolve_specific_absent h state target :
  (forall k it, items state !! k = Some it -> Some (id it) <> target) ->
  calculateActiveItemIndex h state SpecificItem target
  = if bool_decide (items state = []) then None else activeItemIndex state.
Proof.
  intros Habsent. case_bool_decide as E.
  - by apply calculateActiveItemIndex_empty.
  - unfold calculateActiveItemIndex, match_. rewrite len_nonempty by done.
    rewrite findIndex_none; [by rewrite bool_decide_eq_true_2|].
    intros k it Hk. apply bool_decide_eq_false_2. by eapply Habsent.
Qed.

(** C3, as amended: [GoToItem] with [SpecificItem] and an id resolves to
    the index of the first item with that id; when no item has the id (or
    no id is given) it resolves to none on an empty array and hands back
    the current active index otherwise. *)
Theorem goto_specific_resolution h alloc state :
  (forall target,
     activeItemIndex (dispatch h alloc state (GoToItem SpecificItem target))
     = calculateActiveItemIndex h state SpecificItem target)
  /\ (forall ident k it,
        items state !! k = Some it ->
        id it = ident ->
        (forall j jt, (j < k)%nat -> items state !! j = Some jt ->
                      id jt <> ident) ->
        calculateActiveItemIndex h state SpecificItem (Some ident)
        = Some (Z.of_nat k))
  /\ (forall ident,
        (forall k it, items state !! k = Some it -> id it <> ident) ->
        calculateActiveItemIndex h state SpecificItem (Some ident)
        = if bool_decide (items state = []) then None
          else activeItemIndex state)
  /\ calculateActiveItemIndex h state SpecificItem None
     = if bool_decide (items state = []) then None
       else activeItemIndex state.
Proof.
  split; [intros target; apply dispatch_GoToItem_active|].
  split; [intros ident k it; apply resolve_specific_found|].
  split.
  - intros ident Habsent. apply resolve_specific_absent.
    intros k it Hk [=]. by eapply Habsent.
  - by apply resolve_specific_absent.
Qed.

(** C3 as stated fails for an id that no item has while an item is
    active: the active index stays, it does not become none. *)
Lemma goto_specific_absent_keeps_active :
  reachable state_abc_last
  /\ (forall k it, items state_abc_last !! k = Some it ->
        id it <> "zzz"%string)
  /\ activeItemIndex state_abc_last = Some 2
  /\ calculateActiveItemIndex heap_all_enabled state_abc_last
       SpecificItem (Some "zzz"%string) = Some 2
  /\ activeItemIndex
       (dispatch heap_all_enabled 4 state_abc_last
          (GoToItem SpecificItem (Some "zzz"%string))) = Some 2.
Proof.
  split; [apply run_from_default_reachable|].
  split; [|by repeat split].
  intros k it Hk. destruct k as [|[|[|k]]]; cbv in Hk; by simplify_eq.
Qed.

(** ** [Search] *)

Lemma search_hit_spec h query it :
  search_hit h query it = true <->
  exists text, textValue (h (dataRef it)) = Some text
               /\ String.prefix query text = true
               /\ disabled (h (dataRef it)) = false.
Proof.
  unfold search_hit. destruct (textValue _) as [text|]; simpl.
  - rewrite andb_true_iff, negb_true_iff. split.
    + intros [? ?]. by exists text.
    + intros (? & [= <-] & ? & ?). done.
  - split; [done|]. by intros (? & ? & _).
Qed.

Lemma dispatch_Search_frame h alloc state value :
  items (dispatch h alloc state (Search value)) = items state
  /\ searchQuery (dispatch h alloc state (Search value))
     = (searchQuery state ++ value)%string.
Proof.
  unfold_reducer reduce_Search.
  by destruct (_ || _).
Qed.

Lemma dispatch_Search_hit h alloc state value k it :
  items state !! k = Some it ->
  search_hit h (searchQuery state ++ value) it = true ->
  (forall j jt, (j < k)%nat -> items state !! j = Some jt ->
                search_hit h (searchQuery state ++ value) jt = false) ->
  activeItemIndex (dispatch h alloc state (Search value))
  = Some (Z.of_nat k).
Proof.
  intros Hk Hhit Hbefore.
  unfold_reducer reduce_Search.
  rewrite (findIndex_found _ _ k it Hk Hhit Hbefore).
  destruct (Z.eqb_spec (Z.of_nat k) (-1)) as [|_]; [lia|]. simpl.
  case_bool_decide as Hsame; simpl; done.
Qed.

Lemma dispatch_Search_miss h alloc state value :
  (forall k it, items state !! k = Some it ->
                search_hit h (searchQuery state ++ value) it = false) ->
  activeItemIndex (dispatch h alloc state (Search value))
  = activeItemIndex state.
Proof.
  intros Hmiss.
  unfold_reducer reduce_Search.
  by rewrite findIndex_none.
Qed.

(** C4, as amended: from an empty search buffer, [Search v1] followed by
    [Search v2] and the single [Search (v1 ++ v2)] leave the same search
    buffer, and whenever some item that is not disabled has a stored
    label starting with [v1 ++ v2], both make the first such item active.
    When no item qualifies, the single search leaves [activeItemIndex] as
    it was, while the two-step sequence leaves it where [Search v1] put
    it. *)
Theorem search_in_two_steps h alloc1 alloc2 state v1 v2 :
  searchQuery state = EmptyString ->
  searchQuery (dispatch h alloc2 (dispatch h alloc1 state (Search v1))
                 (Search v2)) = (v1 ++ v2)%string
  /\ searchQuery (dispatch h alloc1 state (Search (v1 ++ v2)))
     = (v1 ++ v2)%string
  /\ (forall k it,
        items state !! k = Some it ->
        search_hit h (v1 ++ v2) it = true ->
        (forall j jt, (j < k)%nat -> items state !! j = Some jt ->
                      search_hit h (v1 ++ v2) jt = false) ->
        activeItemIndex
          (dispatch h alloc2 (dispatch h alloc1 state (Search v1))
             (Search v2)) = Some (Z.of_nat k)
        /\ activeItemIndex (dispatch h alloc1 state (Search (v1 ++ v2)))
           = Some (Z.of_nat k))
  /\ ((forall k it, items state !! k = Some it ->
                    search_hit h (v1 ++ v2) it = false) ->
      activeItemIndex (dispatch h alloc1 state (Search (v1 ++ v2)))
      = activeItemIndex state
      /\ activeItemIndex
           (dispatch h alloc2 (dispatch h alloc1 state (Search v1))
              (Search v2))
         = activeItemIndex (dispatch h alloc1 state (Search v1))).
Proof.
  intros Hq.
  destruct (dispatch_Search_frame h alloc1 state v1) as [Hitems Hq1].
  rewrite Hq in Hq1. simpl in Hq1.
  destruct (dispatch_Search_frame h alloc2
              (dispatch h alloc1 state (Search v1)) v2) as [_ Hq2].
  rewrite Hq1 in Hq2.
  destruct (dispatch_Search_frame h alloc1 state (v1 ++ v2)) as [_ Hq12].
  rewrite Hq in Hq12. simpl in Hq12.
  split; [done|]. split; [done|]. split.
  - intros k it Hk Hhit Hbefore. split.
    + apply (dispatch_Search_hit _ _ _ _ k it).
      * by rewrite Hitems.
      * by rewrite Hq1.
      * rewrite Hitems, Hq1. apply Hbefore.
    + apply (dispatch_Search_hit _ _ _ _ k it); rewrite ?Hq; done.
  - intros Hmiss. split.
    + apply dispatch_Search_miss. by rewrite Hq.
    + apply dispatch_Search_miss. by rewrite Hitems, Hq1.
Qed.

(** Typing [b] then [o] over alice, bob, charlie lands on bob, as the
    single search for [bo] does. *)
Lemma search_in_two_steps_witness :
  activeItemIndex
    (dispatch heap_names 4 (dispatch heap_names 3 state_names (Search "b"))
       (Search "o")) = Some 1
  /\ activeItemIndex (dispatch heap_names 3 state_names (Search "bo"))
     = Some 1.
Proof.
  refine (proj1 (proj2 (proj2
            (search_in_two_steps heap_names 3 4 state_names "b" "o" _)))
            1%nat (mkItem 1%nat "b" 1%nat) _ _ _).
  - reflexivity.
  - reflexivity.
  - reflexivity.
  - intros j jt Hj Hjt. destruct j as [|j]; [|lia].
    cbv in Hjt. by simplify_eq.
Defined.

(** C4 as stated fails when the first character alone matches an item and
    the two characters together match none: typing [a] then [x] leaves
    alice active, the single search for [ax] leaves nothing active. *)
Lemma search_two_steps_differs_from_one :
  reachable state_names
  /\ searchQuery state_names = EmptyString
  /\ activeItemIndex state_names = None
  /\ activeItemIndex
       (dispatch heap_names 4
          (dispatch heap_names 3 state_names (Search "a")) (Search "x"))
     = Some 0
  /\ activeItemIndex (dispatch heap_names 3 state_names (Search "ax"))
     = None.
Proof. split; [apply run_from_default_reachable|]. by repeat split. Qed.

(** The reducer compares the typed text as it is with the stored label:
    an upper-case [B] does not reach the label [bob]. *)
Example search_upper_case_key :
  activeItemIndex (dispatch heap_names 3 state_names (Search "B")) = None
  /\ activeItemIndex (dispatch heap_names 3 state_names (Search "b"))
     = Some 1.
Proof. by split. Qed.

(** ** [GoToItem], [CloseMenu] *)

(** C5: when the search buffer is empty, [previousActiveIndex] equals
    [activeItemIndex] and the resolver answers the current
    [activeItemIndex], the [GoToItem] reducer returns the state object it
    was given; in every other case it returns a new state whose
    [searchQuery] is empty, whose [previousActiveIndex] is the old
    [activeItemIndex] and whose [activeItemIndex] is the resolver's
    answer, the other fields being copied. *)
Theorem goto_item_same_or_new h alloc state focus target :
  (searchQuery state = EmptyString
   /\ previousActiveIndex state = activeItemIndex state
   /\ calculateActiveItemIndex h state focus target = activeItemIndex state
   -> stateReducer h alloc state (GoToItem focus target) = SameState)
  /\
  (~ (searchQuery state = EmptyString
      /\ previousActiveIndex state = activeItemIndex state
      /\ calculateActiveItemIndex h state focus target
         = activeItemIndex state)
   -> stateReducer h alloc state (GoToItem focus target)
      = NewState
          {| menuState := menuState state;
             buttonRef := buttonRef state;
             itemsRef := itemsRef state;
             items := items state;
             searchQuery := EmptyString;
             previousActiveIndex := activeItemIndex state;
             activeItemIndex :=
               calculateActiveItemIndex h state focus target |}).
Proof.
  unfold stateReducer, match_, reducers, reduce_GoToItem. split.
  - intros (Hq & Hprev & Hres).
    by rewrite !bool_decide_eq_true_2.
  - intros Hnot.
    destruct (bool_decide_reflect (searchQuery state = EmptyString));
      simpl; [|done].
    destruct (bool_decide_reflect
                (previousActiveIndex state = activeItemIndex state));
      simpl; [|done].
    case_bool_decide; simpl; [|done].
    destruct Hnot. done.
Qed.

(** C8: [CloseMenu] sets [menuState] to [Closed] and copies every other
    field: the items, [activeItemIndex], [previousActiveIndex],
    [searchQuery] and the two handles. *)
Theorem close_menu_frame h alloc state :
  stateReducer h alloc state CloseMenu
  = NewState
      {| menuState := Closed;
         buttonRef := buttonRef state;
         itemsRef := itemsRef state;
         items := items state;
         searchQuery := searchQuery state;
         previousActiveIndex := previousActiveIndex state;
         activeItemIndex := activeItemIndex state |}
  /\ menuState (dispatch h alloc state CloseMenu) = Closed
  /\ items (dispatch h alloc state CloseMenu) = items state
  /\ activeItemIndex (dispatch h alloc state CloseMenu)
     = activeItemIndex state
  /\ previousActiveIndex (dispatch h alloc state CloseMenu)
     = previousActiveIndex state
  /\ searchQuery (dispatch h alloc state CloseMenu) = searchQuery state.
Proof. by repeat split. Qed.

(** ** [UnregisterItem] *)

Lemma indexOf_first (l : list Item) k it :
  l !! k = Some it ->
  (forall j, (j < k)%nat -> l !! j <> Some it) ->
  indexOf l (JsItem it) = Z.of_nat k.
Proof.
  intros Hk Hfirst. unfold indexOf.
  apply (findIndex_found _ _ k it Hk).
  - by apply bool_decide_eq_true_2.
  - intros j jt Hj Hjt. apply bool_decide_eq_false_2. intros ->.
    by apply (Hfirst j).
Qed.

Lemma indexOf_NoDup (l : list Item) k it :
  NoDup l -> l !! k = Some it -> indexOf l (JsItem it) = Z.of_nat k.
Proof.
  intros Hnd Hk. apply indexOf_first; [done|].
  intros j Hj Hjt. pose proof (NoDup_lookup _ _ _ _ Hnd Hk Hjt). lia.
Qed.

(** An object of the array is found at one of its positions. *)
Lemma indexOf_range (l : list Item) it :
  it ∈ l -> 0 <= indexOf l (JsItem it) < len l.
Proof.
  intros (k & Hk)%list_elem_of_lookup_1. unfold indexOf.
  destruct (findIndex_cases (fun x (_ : Z) (_ : list Item) =>
              bool_decide (x = it)) l)
    as [[_ Hall]|(j & x & -> & Hj & _)].
  - specialize (Hall k it Hk). by rewrite bool_decide_eq_true_2 in Hall.
  - apply lookup_lt_Some in Hj. unfold len. lia.
Qed.

Lemma find_id_absent (l : list Item) ident :
  (forall k it, l !! k = Some it -> id it <> ident) ->
  findIndex (fun a (_ : Z) (_ : list Item) => bool_decide (id a = ident)) l
  = -1.
Proof.
  intros Habsent. apply findIndex_none.
  intros k it Hk. apply bool_decide_eq_false_2. by eapply Habsent.
Qed.

Lemma find_id_NoDup (l : list Item) ident k it :
  NoDup (id <$> l) ->
  l !! k = Some it ->
  id it = ident ->
  findIndex (fun a (_ : Z) (_ : list Item) => bool_decide (id a = ident)) l
  = Z.of_nat k.
Proof.
  intros Hnd Hk Hid. apply (findIndex_found _ _ k it Hk).
  - by apply bool_decide_eq_true_2.
  - intros j jt Hj Hjt. apply bool_decide_eq_false_2. intros Hsame.
    assert (j = k); [|lia].
    apply (NoDup_lookup (id <$> l) j k ident Hnd);
      rewrite list_lookup_fmap; [rewrite Hjt | rewrite Hk]; simpl;
      congruence.
Qed.

Lemma at_index_nat {A} (l : list A) (k : nat) :
  at_index l (Z.of_nat k) = l !! k.
Proof.
  unfold at_index. destruct (Z.ltb_spec (Z.of_nat k) 0); [lia|].
  by rewrite Nat2Z.id.
Qed.

Lemma lookup_delete_other {A} (l : list A) k a x :
  l !! a = Some x -> k <> a ->
  delete k l !! (if decide (k < a)%nat then (a - 1)%nat else a) = Some x.
Proof.
  intros Ha Hne. case_decide.
  - rewrite list_lookup_delete_ge by lia.
    by replace (S (a - 1)) with a by lia.
  - rewrite list_lookup_delete_lt by lia. done.
Qed.

(** C6: for every state of the data model, whose item ids are pairwise
    distinct, [UnregisterItem] with the id of the active item removes
    that item and sets [activeItemIndex] to none; with the id of another
    registered item while some item is active, it removes the item of
    that id and sets [activeItemIndex] to the position the same active
    item object now has in the shortened list, one less than before when
    the removed item stood before it. *)
Theorem unregister_registered_item h alloc state ident :
  NoDup (id <$> items state) ->
  (forall a it,
     activeItemIndex state = Some (Z.of_nat a) ->
     items state !! a = Some it ->
     id it = ident ->
     items (dispatch h alloc state (UnregisterItem ident))
     = delete a (items state)
     /\ activeItemIndex (dispatch h alloc state (UnregisterItem ident))
        = None)
  /\
  (forall a it k other,
     activeItemIndex state = Some (Z.of_nat a) ->
     items state !! a = Some it ->
     items state !! k = Some other ->
     id other = ident ->
     k <> a ->
     items (dispatch h alloc state (UnregisterItem ident))
     = delete k (items state)
     /\ activeItemIndex (dispatch h alloc state (UnregisterItem ident))
        = Some (Z.of_nat (if decide (k < a)%nat then (a - 1)%nat else a))
     /\ items (dispatch h alloc state (UnregisterItem ident))
        !! (if decide (k < a)%nat then (a - 1)%nat else a) = Some it).
Proof.
  intros Hnd. split.
  - intros a it Hact Ha Hid.
    unfold_reducer reduce_UnregisterItem.
    simpl. rewrite (find_id_NoDup _ ident a it) by done.
    destruct (Z.eqb_spec (Z.of_nat a) (-1)) as [|_]; [lia|]. simpl.
    unfold splice1. rewrite Nat2Z.id. split; [done|].
    by rewrite bool_decide_eq_true_2.
  - intros a it k other Hact Ha Hk Hid Hne.
    unfold_reducer reduce_UnregisterItem.
    simpl. rewrite (find_id_NoDup _ ident k other) by done.
    destruct (Z.eqb_spec (Z.of_nat k) (-1)) as [|_]; [lia|]. simpl.
    unfold splice1. rewrite Nat2Z.id. split; [done|].
    rewrite Hact, at_index_nat, Ha.
    rewrite bool_decide_eq_false_2 by (intros [=]; lia).
    pose proof (lookup_delete_other _ k a it Ha Hne) as Hnew.
    split; [|done]. f_equal. apply indexOf_NoDup; [|done].
    eapply sublist_NoDup; [|apply sublist_delete].
    by eapply NoDup_fmap_1.
Qed.

(** With [a], [b], [c] registered and [c] active, unregistering [a]
    leaves [b], [c] and moves the active index from 2 to 1. *)
Lemma unregister_registered_item_witness :
  items (dispatch heap_all_enabled 4 state_abc_last (UnregisterItem "a"))
  = delete 0%nat (items state_abc_last)
  /\ activeItemIndex
       (dispatch heap_all_enabled 4 state_abc_last (UnregisterItem "a"))
     = Some 1
  /\ items (dispatch heap_all_enabled 4 state_abc_last (UnregisterItem "a"))
     !! 1%nat = Some (mkItem 2%nat "c" 2%nat).
Proof.
  refine (proj2 (unregister_registered_item heap_all_enabled 4
                   state_abc_last "a" _)
            2%nat (mkItem 2%nat "c" 2%nat) 0%nat (mkItem 0%nat "a" 0%nat)
            _ _ _ _ _).
  - refine (bool_decide_unpack (NoDup _) _). vm_compute. exact I.
  - reflexivity.
  - reflexivity.
  - reflexivity.
  - reflexivity.
  - discriminate.
Defined.

(** The reducer itself does not check ids.  Were two items registered
    under one id, which the items of a menu never do since each takes its
    id from [useId], [UnregisterItem] would remove the first of them: with
    the second one active, it stays registered and active, now at
    index 0. *)
Example unregister_removes_first_of_same_id :
  reachable state_twins
  /\ activeItemIndex state_twins = Some 1
  /\ items state_twins !! 1%nat = Some (mkItem 1%nat "x" 1%nat)
  /\ items (dispatch heap_all_enabled 3 state_twins (UnregisterItem "x"))
     = [mkItem 1%nat "x" 1%nat]
  /\ activeItemIndex
       (dispatch heap_all_enabled 3 state_twins (UnregisterItem "x"))
     = Some 0.
Proof. split; [apply run_from_default_reachable|]. by repeat split. Qed.

Lemma dispatch_UnregisterItem_absent h alloc state ident :
  active_index_valid state ->
  NoDup (items state) ->
  (forall k it, items state !! k = Some it -> id it <> ident) ->
  items (dispatch h alloc state (UnregisterItem ident)) = items state
  /\ activeItemIndex (dispatch h alloc state (UnregisterItem ident))
     = activeItemIndex state.
Proof.
  intros Hvalid Hnd Habsent.
  unfold_reducer reduce_UnregisterItem.
  simpl. rewrite find_id_absent by done. simpl. split; [done|].
  unfold active_index_valid in Hvalid.
  destruct (activeItemIndex state) as [i|] eqn:Hact; [|done].
  rewrite bool_decide_eq_false_2 by (intros [=]; lia).
  assert (exists it, items state !! Z.to_nat i = Some it) as [it Hit].
  { apply lookup_lt_is_Some. unfold len in Hvalid. lia. }
  assert (at_index (items state) i = Some it) as ->.
  { rewrite <- Hit, <- at_index_nat. f_equal. lia. }
  rewrite (indexOf_NoDup _ (Z.to_nat i)) by done.
  f_equal. lia.
Qed.

(** For any state value whose [activeItemIndex] is none or a position of
    the array, and whose array holds every item object once,
    [UnregisterItem] with an id that no item has returns a state with the
    same items and the same [activeItemIndex]. *)
Lemma unregister_absent_id h alloc state ident :
  active_index_valid state ->
  NoDup (items state) ->
  (forall k it, items state !! k = Some it -> id it <> ident) ->
  (exists next,
     stateReducer h alloc state (UnregisterItem ident) = NewState next)
  /\ items (dispatch h alloc state (UnregisterItem ident)) = items state
  /\ activeItemIndex (dispatch h alloc state (UnregisterItem ident))
     = activeItemIndex state.
Proof.
  intros Hvalid Hnd Habsent. split; [by eexists|].
  by apply dispatch_UnregisterItem_absent.
Qed.

(** The two side conditions matter only outside of the invariants: on a
    state value whose active index is outside of the array, which no
    trace produces, [currentActiveItem] is [undefined] and [indexOf]
    answers [-1], which becomes the active index. *)
Example unregister_absent_id_dangling_index :
  (forall k it, items state_empty_active !! k = Some it ->
                id it <> "zzz"%string)
  /\ activeItemIndex state_empty_active = Some 0
  /\ activeItemIndex
       (dispatch heap_all_enabled 0 state_empty_active
          (UnregisterItem "zzz")) = Some (-1).
Proof. repeat split. intros k it Hk. by destruct k. Qed.

(** The same happens to a state value whose array holds the active item
    object a second time at an earlier position: [indexOf] answers the
    first position. *)
Example unregister_absent_id_repeated_object :
  activeItemIndex state_repeated_object = Some 1
  /\ activeItemIndex
       (dispatch heap_all_enabled 1 state_repeated_object
          (UnregisterItem "zzz")) = Some 0.
Proof. by split. Qed.

(** C10: whatever the state and the id, the [UnregisterItem] reducer
    returns a new state object whose [previousActiveIndex] is the old
    [activeItemIndex]; this holds for an id that no item has, where it
    can overwrite [previousActiveIndex] while items and active index
    stay. *)
Theorem unregister_sets_previous_index :
  (forall h alloc state ident,
     exists next,
       stateReducer h alloc state (UnregisterItem ident) = NewState next
       /\ previousActiveIndex next = activeItemIndex state
       /\ previousActiveIndex
            (dispatch h alloc state (UnregisterItem ident))
          = activeItemIndex state)
  /\ (exists h alloc state ident,
        reachable state
        /\ (forall k it, items state !! k = Some it -> id it <> ident)
        /\ previousActiveIndex state = None
        /\ previousActiveIndex
             (dispatch h alloc state (UnregisterItem ident)) = Some 2).
Proof.
  split.
  - intros h alloc state ident. eexists. by repeat split.
  - exists heap_all_enabled, 4%nat, state_abc_last, "zzz"%string.
    split; [apply run_from_default_reachable|].
    split; [|by split].
    intros k it Hk. destruct k as [|[|[|k]]]; cbv in Hk; by simplify_eq.
Qed.

(** ** Invariants of the reachable states *)

Lemma calculateActiveItemIndex_range h state focus target i :
  active_index_valid state ->
  calculateActiveItemIndex h state focus target = Some i ->
  0 <= i < len (items state).
Proof.
  unfold active_index_valid, calculateActiveItemIndex, match_.
  intros Hvalid. destruct (len (items state) <=? 0); [done|].
  assert (forall v, v = -1 \/ 0 <= v < len (items state) ->
            (if bool_decide (Some v = Some (-1)) then activeItemIndex state
             else Some v) = Some i -> 0 <= i < len (items state)) as Hens.
  { intros v Hv. case_bool_decide as Hm.
    - intros Hi. by rewrite Hi in Hvalid.
    - intros [= <-]. destruct Hv as [->|]; [by destruct Hm|done]. }
  assert (forall q, let idx := findIndex q (reverse (items state)) in
            idx = -1 \/ 0 <= idx < len (items state)) as Hrev.
  { intros q. pose proof (findIndex_range q (reverse (items state))) as Hr.
    unfold len in *. by rewrite length_reverse in Hr. }
  destruct focus.
  - apply Hens, findIndex_range.
  - match goal with |- context [findIndex ?q (reverse ?l)] =>
      pose proof (Hrev q) as Hq; simpl in Hq;
      set (idx := findIndex q (reverse l)) in *
    end.
    destruct (Z.eqb_spec idx (-1)) as [E|E].
    + rewrite E. apply Hens. by left.
    + apply Hens. right. lia.
  - apply Hens, findIndex_range.
  - match goal with |- context [findIndex ?q (reverse ?l)] =>
      pose proof (Hrev q) as Hq; simpl in Hq;
      set (idx := findIndex q (reverse l)) in *
    end.
    destruct (Z.eqb_spec idx (-1)) as [E|E].
    + rewrite E. apply Hens. by left.
    + apply Hens. right. lia.
  - apply Hens, findIndex_range.
  - by rewrite bool_decide_eq_false_2.
Qed.

(** Every transition keeps the active index inside the array. *)
Lemma dispatch_active_index_valid h alloc state action :
  active_index_valid state ->
  active_index_valid (dispatch h alloc state action).
Proof.
  intros Hvalid.
  destruct action; try exact Hvalid.
  - (* GoToItem *)
    unfold active_index_valid. rewrite dispatch_GoToItem_active.
    destruct (calculateActiveItemIndex h state focus target) as [i|] eqn:E;
      [|done].
    replace (items (dispatch h alloc state (GoToItem focus target)))
      with (items state).
    + by eapply calculateActiveItemIndex_range.
    + unfold_reducer reduce_GoToItem.
      by destruct (_ && _).
  - (* Search *)
    unfold active_index_valid, dispatch, stateReducer, match_, reducers,
      reduce_Search.
    match goal with |- context [findIndex ?q (items state)] =>
      pose proof (findIndex_range q (items state)) as Hr;
      set (found := findIndex q (items state)) in *
    end.
    destruct (Z.eqb_spec found (-1)) as [E|E]; simpl; [exact Hvalid|].
    case_bool_decide; simpl; [exact Hvalid|]. lia.
  - (* RegisterItem *)
    unfold active_index_valid in *. simpl.
    destruct (activeItemIndex state) as [i|]; [|done].
    unfold len in *. rewrite length_app. simpl. lia.
  - (* UnregisterItem *)
    unfold active_index_valid in *.
    unfold_reducer reduce_UnregisterItem.
    simpl.
    match goal with |- context [findIndex ?q (items state)] =>
      pose proof (findIndex_range q (items state)) as Hr;
      set (idx := findIndex q (items state)) in * end.
    destruct (activeItemIndex state) as [i|] eqn:Hact;
      [|by rewrite bool_decide_eq_false_2].
    case_bool_decide as Hsame; [done|].
    assert (exists it, items state !! Z.to_nat i = Some it) as [it Hit].
    { apply lookup_lt_is_Some. unfold len in Hvalid. lia. }
    assert (at_index (items state) i = Some it) as ->.
    { rewrite <- Hit, <- at_index_nat. f_equal. lia. }
    apply indexOf_range.
    destruct (Z.eqb_spec idx (-1)) as [E|E]; simpl.
    + by eapply list_elem_of_lookup_2.
    + eapply list_elem_of_lookup_2. unfold splice1.
      apply (lookup_delete_other _ (Z.to_nat idx) (Z.to_nat i) it Hit).
      intros Heq. apply Hsame. f_equal. lia.
Qed.

Lemma reachable_valid state : reachable state -> active_index_valid state.
Proof.
  induction 1 as [|h alloc state action _ IH _]; [done|].
  by apply dispatch_active_index_valid.
Qed.

(** No item object stands twice in the array of a reachable state. *)
Lemma reachable_items_NoDup state :
  reachable state -> NoDup (item_obj <$> items state).
Proof.
  induction 1 as [|h alloc state action _ IH Hfresh]; [constructor|].
  destruct (dispatch_items h alloc state action)
    as [->|[(ident & ref & ->)|(k & ->)]].
  - done.
  - rewrite fmap_app. apply NoDup_app. split; [done|]. split.
    + intros x Hx [->|[]%elem_of_nil]%elem_of_cons. done.
    + apply NoDup_singleton.
  - rewrite list_fmap_delete.
    eapply sublist_NoDup; [done | apply sublist_delete].
Qed.

Lemma indexOf_lookup (l : list Item) it :
  it ∈ l -> exists k, indexOf l (JsItem it) = Z.of_nat k /\ l !! k = Some it.
Proof.
  intros (k & Hk)%list_elem_of_lookup_1. unfold indexOf.
  destruct (findIndex_cases (fun x (_ : Z) (_ : list Item) =>
              bool_decide (x = it)) l)
    as [[_ Hall]|(j & x & Hfound & Hj & Hx & _)].
  - specialize (Hall k it Hk). by rewrite bool_decide_eq_true_2 in Hall.
  - apply bool_decide_eq_true_1 in Hx as ->. by exists j.
Qed.

(** After [UnregisterItem], the active index is none or designates the
    item object that was active before. *)
Lemma dispatch_UnregisterItem_keeps_item h alloc state ident :
  active_index_valid state ->
  activeItemIndex (dispatch h alloc state (UnregisterItem ident)) = None
  \/ exists k k' it,
       activeItemIndex state = Some (Z.of_nat k)
       /\ items state !! k = Some it
       /\ activeItemIndex (dispatch h alloc state (UnregisterItem ident))
          = Some (Z.of_nat k')
       /\ items (dispatch h alloc state (UnregisterItem ident)) !! k'
          = Some it.
Proof.
  unfold active_index_valid. intros Hvalid.
  unfold_reducer reduce_UnregisterItem.
  simpl.
  match goal with |- context [findIndex ?q (items state)] =>
    pose proof (findIndex_range q (items state)) as Hr;
    set (idx := findIndex q (items state)) in * end.
  destruct (activeItemIndex state) as [i|] eqn:Hact;
    [|left; by rewrite bool_decide_eq_false_2].
  case_bool_decide as Hsame; [by left|]. right.
  assert (exists it, items state !! Z.to_nat i = Some it) as [it Hit].
  { apply lookup_lt_is_Some. unfold len in Hvalid. lia. }
  assert (at_index (items state) i = Some it) as ->.
  { rewrite <- Hit, <- at_index_nat. f_equal. lia. }
  match goal with |- context [indexOf ?l (JsItem it)] =>
    destruct (indexOf_lookup l it) as (k' & -> & Hk') end.
  { destruct (Z.eqb_spec idx (-1)) as [E|E]; simpl.
    - by eapply list_elem_of_lookup_2.
    - eapply list_elem_of_lookup_2. unfold splice1.
      apply (lookup_delete_other _ (Z.to_nat idx) (Z.to_nat i) it Hit).
      intros Heq. apply Hsame. f_equal. lia. }
  exists (Z.to_nat i), k', it. repeat split; [f_equal; lia | done..].
Qed.

(** C7: in every state reached from [defaultState] by a sequence of
    actions, [activeItemIndex] is none or the index of an item that is
    currently in the array; and after an unregistration from such a
    state the active index is none or designates the very item that was
    active before. *)
Theorem reachable_active_index_registered state :
  reachable state ->
  (activeItemIndex state = None
   \/ exists k it,
        activeItemIndex state = Some (Z.of_nat k)
        /\ items state !! k = Some it)
  /\
  (forall h alloc ident,
     activeItemIndex (dispatch h alloc state (UnregisterItem ident)) = None
     \/ exists k k' it,
          activeItemIndex state = Some (Z.of_nat k)
          /\ items state !! k = Some it
          /\ activeItemIndex (dispatch h alloc state (UnregisterItem ident))
             = Some (Z.of_nat k')
          /\ items (dispatch h alloc state (UnregisterItem ident)) !! k'
             = Some it).
Proof.
  intros Hvalid%reachable_valid. split.
  - unfold active_index_valid in Hvalid.
    destruct (activeItemIndex state) as [i|]; [right | by left].
    assert (exists it, items state !! Z.to_nat i = Some it) as [it Hit].
    { apply lookup_lt_is_Some. unfold len in Hvalid. lia. }
    exists (Z.to_nat i), it. split; [|done]. f_equal. lia.
  - intros h alloc ident. by apply dispatch_UnregisterItem_keeps_item.
Qed.

(** After registering [a], [b], [c], going to the last item and
    unregistering [a], the active index designates an item. *)
Lemma reachable_active_index_registered_witness :
  activeItemIndex
    (run heap_all_enabled 0
       (register_abc ++ [GoToItem LastItem None; UnregisterItem "a"])
       defaultState) = None
  \/ exists k it,
       activeItemIndex
         (run heap_all_enabled 0
            (register_abc ++ [GoToItem LastItem None; UnregisterItem "a"])
            defaultState) = Some (Z.of_nat k)
       /\ items
            (run heap_all_enabled 0
               (register_abc ++ [GoToItem LastItem None; UnregisterItem "a"])
               defaultState) !! k = Some it.
Proof.
  refine (proj1 (reachable_active_index_registered _ _)).
  apply run_from_default_reachable.
Defined.

(** ** No wrap-around and unknown ids, on the reachable states *)

Lemma reachable_goto_next_no_wrap h alloc state target :
  reachable state ->
  (forall k it, items state !! k = Some it ->
     default (-1) (activeItemIndex state) < Z.of_nat k ->
     disabled (h (dataRef it)) = true) ->
  activeItemIndex (dispatch h alloc state (GoToItem NextItem target))
  = activeItemIndex state.
Proof.
  intros Hvalid%reachable_valid Hall. rewrite dispatch_GoToItem_active.
  destruct (decide (items state = [])) as [E|Hne].
  - rewrite calculateActiveItemIndex_empty by done.
    unfold active_index_valid, len in Hvalid. rewrite E in Hvalid.
    destruct (activeItemIndex state); [simpl in Hvalid; lia | done].
  - by apply resolve_next_none.
Qed.

Lemma reachable_goto_previous_no_wrap h alloc state target :
  reachable state ->
  (forall k it, items state !! k = Some it ->
     Z.of_nat k < default (-1) (activeItemIndex state) ->
     disabled (h (dataRef it)) = true) ->
  activeItemIndex (dispatch h alloc state (GoToItem PreviousItem target))
  = activeItemIndex state.
Proof.
  intros Hvalid%reachable_valid Hall. rewrite dispatch_GoToItem_active.
  destruct (decide (items state = [])) as [E|Hne].
  - rewrite calculateActiveItemIndex_empty by done.
    unfold active_index_valid, len in Hvalid. rewrite E in Hvalid.
    destruct (activeItemIndex state); [simpl in Hvalid; lia | done].
  - by apply resolve_previous_none.
Qed.

(** C1: in every state of the menu, whatever its item list and its
    active index, [GoToItem] with [NextItem] leaves [activeItemIndex]
    unchanged when no item that is not disabled has an index strictly
    greater than the active index, and [GoToItem] with [PreviousItem]
    leaves it unchanged when no such item has an index strictly less
    than it; in both cases the resolver returns the current active index
    itself.  There is no wrap-around.  The active index counts as [-1]
    when nothing is active. *)
Theorem reachable_goto_no_wrap h alloc state target :
  reachable state ->
  ((forall k it, items state !! k = Some it ->
      default (-1) (activeItemIndex state) < Z.of_nat k ->
      disabled (h (dataRef it)) = true) ->
   calculateActiveItemIndex h state NextItem target = activeItemIndex state
   /\ activeItemIndex (dispatch h alloc state (GoToItem NextItem target))
      = activeItemIndex state)
  /\
  ((forall k it, items state !! k = Some it ->
      Z.of_nat k < default (-1) (activeItemIndex state) ->
      disabled (h (dataRef it)) = true) ->
   calculateActiveItemIndex h state PreviousItem target
   = activeItemIndex state
   /\ activeItemIndex (dispatch h alloc state (GoToItem PreviousItem target))
      = activeItemIndex state).
Proof.
  intros Hr. split; intros Hall.
  - pose proof (reachable_goto_next_no_wrap h alloc state target Hr Hall)
      as Hsame.
    split; [|done]. by rewrite <- (dispatch_GoToItem_active h alloc).
  - pose proof (reachable_goto_previous_no_wrap h alloc state target Hr Hall)
      as Hsame.
    split; [|done]. by rewrite <- (dispatch_GoToItem_active h alloc).
Qed.

(** The items [a], [b], [c] with [c] active: [NextItem] stays on [c]. *)
Lemma reachable_goto_no_wrap_witness :
  calculateActiveItemIndex heap_all_enabled state_abc_last NextItem None
  = Some 2
  /\ activeItemIndex
       (dispatch heap_all_enabled 7 state_abc_last (GoToItem NextItem None))
     = Some 2.
Proof.
  refine (proj1 (reachable_goto_no_wrap heap_all_enabled 7
                   state_abc_last None _) _).
  - apply run_from_default_reachable.
  - intros k it Hk Hlt.
    destruct k as [|[|[|k]]]; cbv in Hk, Hlt; discriminate.
Defined.

(** C9: in every state of the menu, [UnregisterItem] with an id that no
    registered item has is tolerated: the reducer returns a state, it
    raises nothing, and that state has the same items and the same
    [activeItemIndex]. *)
Theorem reachable_unregister_absent_id h alloc state ident :
  reachable state ->
  (forall k it, items state !! k = Some it -> id it <> ident) ->
  (exists next,
     stateReducer h alloc state (UnregisterItem ident) = NewState next)
  /\ items (dispatch h alloc state (UnregisterItem ident)) = items state
  /\ activeItemIndex (dispatch h alloc state (UnregisterItem ident))
     = activeItemIndex state.
Proof.
  intros Hr Habsent. split; [by eexists|].
  apply dispatch_UnregisterItem_absent; [|  |done].
  - by apply reachable_valid.
  - eapply NoDup_fmap_1. by apply reachable_items_NoDup.
Qed.

(** With [a], [b], [c] registered and [c] active, unregistering an
    unknown id changes neither the items nor the active index. *)
Lemma reachable_unregister_absent_id_witness :
  items (dispatch heap_all_enabled 4 state_abc_last (UnregisterItem "zzz"))
  = items state_abc_last
  /\ activeItemIndex
       (dispatch heap_all_enabled 4 state_abc_last (UnregisterItem "zzz"))
     = Some 2.
Proof.
  refine (proj2 (reachable_unregister_absent_id heap_all_enabled 4
                   state_abc_last "zzz" _ _)).
  - apply run_from_default_reachable.
  - intros k it Hk. destruct k as [|[|[|k]]]; cbv in Hk; by simplify_eq.
Defined.

(** * Further properties of the reducers and of the handlers *)

(** ** [NextItem] and [PreviousItem] *)

Lemma resolve_next_found h state target k it :
  items state !! k = Some it ->
  default (-1) (activeItemIndex state) < Z.of_nat k ->
  disabled (h (dataRef it)) = false ->
  (forall j jt, default (-1) (activeItemIndex state) < Z.of_nat j ->
                (j < k)%nat -> items state !! j = Some jt ->
                disabled (h (dataRef jt)) = true) ->
  calculateActiveItemIndex h state NextItem target = Some (Z.of_nat k).
Proof.
  intros Hk Hafter Hen Hbetween. unfold calculateActiveItemIndex, match_.
  rewrite len_nonempty by (intros E; by rewrite E in Hk).
  rewrite (findIndex_found _ _ k it Hk).
  - apply ensure_index.
  - destruct (Z.leb_spec (Z.of_nat k)
      (default (-1) (activeItemIndex state))); [lia|].
    unfold enabled. by rewrite Hen.
  - intros j jt Hj Hjt.
    destruct (Z.leb_spec (Z.of_nat j)
      (default (-1) (activeItemIndex state))); [done|].
    unfold enabled. by rewrite (Hbetween j jt).
Qed.

Lemma resolve_previous_found h state target k it :
  items state !! k = Some it ->
  Z.of_nat k < default (-1) (activeItemIndex state) ->
  disabled (h (dataRef it)) = false ->
  (forall j jt, (k < j)%nat ->
                Z.of_nat j < default (-1) (activeItemIndex state) ->
                items state !! j = Some jt ->
                disabled (h (dataRef jt)) = true) ->
  calculateActiveItemIndex h state PreviousItem target
  = Some (Z.of_nat k).
Proof.
  intros Hk Hbefore Hen Hbetween. unfold calculateActiveItemIndex, match_.
  rewrite len_nonempty by (intros E; by rewrite E in Hk).
  pose proof (lookup_lt_Some _ _ _ Hk) as Hlt.
  set (n := length (items state)) in *.
  rewrite (findIndex_found _ _ (n - S k) it).
  - destruct (Z.eqb_spec (Z.of_nat (n - S k)) (-1)) as [|_]; [lia|].
    unfold len. fold n.
    replace (Z.of_nat n - 1 - Z.of_nat (n - S k)) with (Z.of_nat k) by lia.
    apply ensure_index.
  - rewrite reverse_lookup by (fold n; lia). fold n.
    by replace (n - S (n - S k))%nat with k by lia.
  - unfold len. rewrite length_reverse. fold n.
    destruct (Z.geb_spec (Z.of_nat n - Z.of_nat (n - S k) - 1)
      (default (-1) (activeItemIndex state))); [lia|].
    unfold enabled. by rewrite Hen.
  - intros j jt Hj Hjt. rewrite reverse_lookup in Hjt by (fold n; lia).
    fold n in Hjt. unfold len. rewrite length_reverse. fold n.
    destruct (Z.geb_spec (Z.of_nat n - Z.of_nat j - 1)
      (default (-1) (activeItemIndex state))); [done|].
    unfold enabled.
    rewrite (Hbetween (n - S j)%nat jt); [done | lia | lia | done].
Qed.

(** X1: [GoToItem] with [NextItem] makes the first item after the active
    index that is not disabled the active one, and with [PreviousItem]
    the last such item before the active index; the active index counts
    as [-1] when nothing is active, so [PreviousItem] finds nothing
    then. *)
Theorem goto_next_previous_resolution h alloc state target :
  (forall k it,
     items state !! k = Some it ->
     default (-1) (activeItemIndex state) < Z.of_nat k ->
     disabled (h (dataRef it)) = false ->
     (forall j jt, default (-1) (activeItemIndex state) < Z.of_nat j ->
                   (j < k)%nat -> items state !! j = Some jt ->
                   disabled (h (dataRef jt)) = true) ->
     activeItemIndex (dispatch h alloc state (GoToItem NextItem target))
     = Some (Z.of_nat k))
  /\
  (forall k it,
     items state !! k = Some it ->
     Z.of_nat k < default (-1) (activeItemIndex state) ->
     disabled (h (dataRef it)) = false ->
     (forall j jt, (k < j)%nat ->
                   Z.of_nat j < default (-1) (activeItemIndex state) ->
                   items state !! j = Some jt ->
                   disabled (h (dataRef jt)) = true) ->
     activeItemIndex (dispatch h alloc state (GoToItem PreviousItem target))
     = Some (Z.of_nat k))
  /\
  (activeItemIndex state = None ->
   activeItemIndex (dispatch h alloc state (GoToItem PreviousItem target))
   = None).
Proof.
  rewrite !dispatch_GoToItem_active. split; [|split].
  - intros k it. apply resolve_next_found.
  - intros k it. apply resolve_previous_found.
  - intros Hnone. destruct (decide (items state = [])) as [E|Hne].
    + by apply calculateActiveItemIndex_empty.
    + rewrite resolve_previous_none; [done..|].
      intros k it _. rewrite Hnone. simpl. lia.
Qed.

(** What the four directional intents can answer: the current active
    index, or the index of an item that is not disabled. *)
Lemma resolve_directional_cases h state focus target :
  focus = FirstItem \/ focus = PreviousItem \/ focus = NextItem
  \/ focus = LastItem ->
  calculateActiveItemIndex h state focus target = None
  \/ calculateActiveItemIndex h state focus target = activeItemIndex state
  \/ exists k it,
       calculateActiveItemIndex h state focus target = Some (Z.of_nat k)
       /\ items state !! k = Some it
       /\ disabled (h (dataRef it)) = false.
Proof.
  intros Hfocus. unfold calculateActiveItemIndex, match_.
  destruct (len (items state) <=? 0); [by left|]. right.
  assert (forall (q : Item -> Z -> list Item -> bool),
            (forall x i l, q x i l = true -> enabled h x = true) ->
            (if bool_decide (Some (findIndex q (items state)) = Some (-1))
             then activeItemIndex state
             else Some (findIndex q (items state)))
            = activeItemIndex state
            \/ exists k it,
                 (if bool_decide
                       (Some (findIndex q (items state)) = Some (-1))
                  then activeItemIndex state
                  else Some (findIndex q (items state)))
                 = Some (Z.of_nat k)
                 /\ items state !! k = Some it
                 /\ disabled (h (dataRef it)) = false) as Hforward.
  { intros q Hq.
    destruct (findIndex_cases q (items state))
      as [[-> _]|(k & x & -> & Hk & Hx & _)].
    - left. by rewrite bool_decide_eq_true_2.
    - right. exists k, x. rewrite ensure_index. split; [done|].
      split; [done|]. apply Hq in Hx. unfold enabled in Hx.
      by apply negb_true_iff in Hx. }
  assert (forall (q : Item -> Z -> list Item -> bool),
            (forall x i l, q x i l = true -> enabled h x = true) ->
            let idx := findIndex q (reverse (items state)) in
            (if bool_decide
                  ((if idx =? -1 then Some idx
                    else Some (len (items state) - 1 - idx)) = Some (-1))
             then activeItemIndex state
             else if idx =? -1 then Some idx
                  else Some (len (items state) - 1 - idx))
            = activeItemIndex state
            \/ exists k it,
                 (if bool_decide
                       ((if idx =? -1 then Some idx
                         else Some (len (items state) - 1 - idx))
                        = Some (-1))
                  then activeItemIndex state
                  else if idx =? -1 then Some idx
                       else Some (len (items state) - 1 - idx))
                 = Some (Z.of_nat k)
                 /\ items state !! k = Some it
                 /\ disabled (h (dataRef it)) = false) as Hbackward.
  { intros q Hq idx. subst idx.
    destruct (findIndex_cases q (reverse (items state)))
      as [[-> _]|(r & x & -> & Hr & Hx & _)].
    - left. replace (-1 =? -1) with true by done.
      by rewrite bool_decide_eq_true_2.
    - right. pose proof (lookup_lt_Some _ _ _ Hr) as Hlt.
      rewrite length_reverse in Hlt.
      rewrite reverse_lookup in Hr by done.
      set (n := length (items state)) in *.
      exists (n - S r)%nat, x.
      destruct (Z.eqb_spec (Z.of_nat r) (-1)) as [|_]; [lia|].
      unfold len. fold n.
      replace (Z.of_nat n - 1 - Z.of_nat r) with (Z.of_nat (n - S r))
        by lia.
      rewrite ensure_index. split; [done|]. split; [done|].
      apply Hq in Hx. unfold enabled in Hx. by apply negb_true_iff in Hx. }
  destruct Hfocus as [-> | [-> | [-> | ->]]].
  - apply Hforward. by intros x i l.
  - apply Hbackward. intros x i l. by destruct (_ >=? _).
  - apply Hforward. intros x i l. by destruct (_ <=? _).
  - apply Hbackward. by intros x i l.
Qed.

(** X2: keyboard navigation never moves onto a disabled item: when
    [GoToItem] with [FirstItem], [PreviousItem], [NextItem] or [LastItem]
    changes [activeItemIndex] to an index, that index designates an item
    of the list that is not disabled. *)
Theorem goto_directional_lands_on_enabled h alloc state focus target i :
  focus = FirstItem \/ focus = PreviousItem \/ focus = NextItem
  \/ focus = LastItem ->
  activeItemIndex (dispatch h alloc state (GoToItem focus target))
  = Some i ->
  activeItemIndex state <> Some i ->
  exists it, at_index (items state) i = Some it
             /\ disabled (h (dataRef it)) = false.
Proof.
  intros Hfocus. rewrite dispatch_GoToItem_active. intros Hres Hchanged.
  destruct (resolve_directional_cases h state focus target Hfocus)
    as [E|[E|(k & it & E & Hk & Hen)]]; rewrite E in Hres.
  - done.
  - by destruct Hchanged.
  - injection Hres as <-. exists it. by rewrite at_index_nat.
Qed.

(** Items [a], [b] disabled and [c] enabled: [FirstItem] moves from
    nothing to index 2, an enabled item. *)
Lemma goto_directional_lands_on_enabled_witness :
  exists it, at_index (items state_names) 2 = Some it
             /\ disabled (heap_two_disabled (dataRef it)) = false.
Proof.
  refine (goto_directional_lands_on_enabled heap_two_disabled 3
            state_names FirstItem None 2 _ _ _).
  - by left.
  - reflexivity.
  - discriminate.
Defined.

Lemma dispatch_GoToItem_frame h alloc state focus target :
  items (dispatch h alloc state (GoToItem focus target)) = items state
  /\ menuState (dispatch h alloc state (GoToItem focus target))
     = menuState state
  /\ searchQuery (dispatch h alloc state (GoToItem focus target))
     = EmptyString.
Proof.
  unfold_reducer reduce_GoToItem.
  destruct (bool_decide_reflect (searchQuery state = EmptyString));
    simpl; [|done].
  by destruct (_ && _).
Qed.

(** [NextItem] answers the current active index, or the first enabled
    item behind it. *)
Lemma resolve_next_cases h state target :
  items state <> [] ->
  calculateActiveItemIndex h state NextItem target = activeItemIndex state
  \/ exists k it,
       calculateActiveItemIndex h state NextItem target
       = Some (Z.of_nat k)
       /\ items state !! k = Some it
       /\ default (-1) (activeItemIndex state) < Z.of_nat k
       /\ disabled (h (dataRef it)) = false
       /\ forall j jt,
            default (-1) (activeItemIndex state) < Z.of_nat j ->
            (j < k)%nat -> items state !! j = Some jt ->
            disabled (h (dataRef jt)) = true.
Proof.
  intros Hne.
  unfold calculateActiveItemIndex, match_. rewrite len_nonempty by done.
  match goal with |- context [findIndex ?q (items state)] =>
    destruct (findIndex_cases q (items state))
      as [[-> _]|(k & x & -> & Hk & Hx & Hfirst)] end.
  - left. by rewrite bool_decide_eq_true_2.
  - right. exists k, x. rewrite ensure_index.
    destruct (Z.leb_spec (Z.of_nat k)
      (default (-1) (activeItemIndex state))); [done|].
    unfold enabled in Hx. apply negb_true_iff in Hx.
    repeat split; try done.
    intros j jt Hafter Hj Hjt. specialize (Hfirst j jt Hj Hjt).
    simpl in Hfirst.
    destruct (Z.leb_spec (Z.of_nat j)
      (default (-1) (activeItemIndex state))); [lia|].
    unfold enabled in Hfirst. by apply negb_false_iff in Hfirst.
Qed.

(** [PreviousItem] answers the current active index, or the last enabled
    item before it. *)
Lemma resolve_previous_cases h state target :
  items state <> [] ->
  calculateActiveItemIndex h state PreviousItem target
  = activeItemIndex state
  \/ exists k it,
       calculateActiveItemIndex h state PreviousItem target
       = Some (Z.of_nat k)
       /\ items state !! k = Some it
       /\ Z.of_nat k < default (-1) (activeItemIndex state)
       /\ disabled (h (dataRef it)) = false
       /\ forall j jt,
            (k < j)%nat ->
            Z.of_nat j < default (-1) (activeItemIndex state) ->
            items state !! j = Some jt ->
            disabled (h (dataRef jt)) = true.
Proof.
  intros Hne.
  unfold calculateActiveItemIndex, match_. rewrite len_nonempty by done.
  set (n := length (items state)).
  match goal with |- context [findIndex ?q (reverse (items state))] =>
    destruct (findIndex_cases q (reverse (items state)))
      as [[-> _]|(r & x & -> & Hr & Hx & Hfirst)] end.
  - left. replace (-1 =? -1) with true by done.
    by rewrite bool_decide_eq_true_2.
  - right. pose proof (lookup_lt_Some _ _ _ Hr) as Hlt.
    rewrite length_reverse in Hlt. fold n in Hlt.
    rewrite reverse_lookup in Hr by done. fold n in Hr.
    unfold len in Hx, Hfirst. rewrite length_reverse in Hx, Hfirst.
    fold n in Hx, Hfirst.
    exists (n - S r)%nat, x.
    destruct (Z.eqb_spec (Z.of_nat r) (-1)) as [|_]; [lia|].
    unfold len. fold n.
    replace (Z.of_nat n - 1 - Z.of_nat r) with (Z.of_nat (n - S r)) by lia.
    rewrite ensure_index.
    destruct (Z.geb_spec (Z.of_nat n - Z.of_nat r - 1)
      (default (-1) (activeItemIndex state))); [done|].
    unfold enabled in Hx. apply negb_true_iff in Hx.
    repeat split; try done; [lia|].
    intros j jt Hj Hbefore Hjt.
    pose proof (lookup_lt_Some _ _ _ Hjt) as Hjlt. fold n in Hjlt.
    specialize (Hfirst (n - S j)%nat jt).
    rewrite reverse_lookup in Hfirst by (fold n; lia). fold n in Hfirst.
    replace (n - S (n - S j))%nat with j in Hfirst by lia.
    specialize (Hfirst ltac:(lia) Hjt). simpl in Hfirst.
    destruct (Z.geb_spec (Z.of_nat n - Z.of_nat (n - S j) - 1)
      (default (-1) (activeItemIndex state))); [lia|].
    unfold enabled in Hfirst. by apply negb_false_iff in Hfirst.
Qed.

(** X3: one step forth and one step back return to the start.  When the
    active item is not disabled and [NextItem] moves the active index,
    [PreviousItem] right after it brings the active index back; likewise
    for [PreviousItem] followed by [NextItem]. *)
Theorem goto_next_previous_round_trip h alloc1 alloc2 state t1 t2 a it :
  activeItemIndex state = Some (Z.of_nat a) ->
  items state !! a = Some it ->
  disabled (h (dataRef it)) = false ->
  (activeItemIndex (dispatch h alloc1 state (GoToItem NextItem t1))
   <> activeItemIndex state ->
   activeItemIndex
     (dispatch h alloc2 (dispatch h alloc1 state (GoToItem NextItem t1))
        (GoToItem PreviousItem t2))
   = activeItemIndex state)
  /\
  (activeItemIndex (dispatch h alloc1 state (GoToItem PreviousItem t1))
   <> activeItemIndex state ->
   activeItemIndex
     (dispatch h alloc2 (dispatch h alloc1 state (GoToItem PreviousItem t1))
        (GoToItem NextItem t2))
   = activeItemIndex state).
Proof.
  intros Hact Ha Hen.
  assert (items state <> []) as Hne by (intros E; by rewrite E in Ha).
  split; intros Hmoved.
  - pose proof (dispatch_GoToItem_active h alloc1 state NextItem t1) as H1.
    destruct (dispatch_GoToItem_frame h alloc1 state NextItem t1)
      as (Hitems & _).
    rewrite H1 in Hmoved.
    destruct (resolve_next_cases h state t1 Hne)
      as [E|(k & kt & E & Hk & Hafter & _ & Hfirst)]; [done|].
    rewrite E in H1. rewrite Hact in Hafter, Hfirst. simpl in Hafter, Hfirst.
    rewrite (dispatch_GoToItem_active h alloc2), Hact.
    apply (resolve_previous_found _ _ _ a it).
    + by rewrite Hitems.
    + rewrite H1. simpl. lia.
    + done.
    + intros j jt Hj Hbefore Hjt. rewrite H1 in Hbefore. simpl in Hbefore.
      rewrite Hitems in Hjt. apply (Hfirst j jt); [lia | lia | done].
  - pose proof (dispatch_GoToItem_active h alloc1 state PreviousItem t1)
      as H1.
    destruct (dispatch_GoToItem_frame h alloc1 state PreviousItem t1)
      as (Hitems & _).
    rewrite H1 in Hmoved.
    destruct (resolve_previous_cases h state t1 Hne)
      as [E|(k & kt & E & Hk & Hbefore & _ & Hlast)]; [done|].
    rewrite E in H1. rewrite Hact in Hbefore, Hlast.
    simpl in Hbefore, Hlast.
    rewrite (dispatch_GoToItem_active h alloc2), Hact.
    apply (resolve_next_found _ _ _ a it).
    + by rewrite Hitems.
    + rewrite H1. simpl. lia.
    + done.
    + intros j jt Hafter Hj Hjt. rewrite H1 in Hafter. simpl in Hafter.
      rewrite Hitems in Hjt. apply (Hlast j jt); [lia | lia | done].
Qed.

(** Over alice, bob (disabled) and charlie with alice active, arrow down
    reaches charlie and arrow up comes back to alice. *)
Lemma goto_next_previous_round_trip_witness :
  activeItemIndex
    (dispatch heap_bob_disabled 5
       (dispatch heap_bob_disabled 4
          (dispatch heap_bob_disabled 3 state_names
             (GoToItem FirstItem None))
          (GoToItem NextItem None))
       (GoToItem PreviousItem None))
  = Some 0.
Proof.
  refine (proj1 (goto_next_previous_round_trip heap_bob_disabled 4 5
                   (dispatch heap_bob_disabled 3 state_names
                      (GoToItem FirstItem None))
                   None None 0%nat (mkItem 0%nat "a" 0%nat) _ _ _) _).
  - reflexivity.
  - reflexivity.
  - reflexivity.
  - discriminate.
Defined.

(** ** [Search], once more *)

(** X4: the type-ahead search never selects a disabled item: when
    [Search] changes [activeItemIndex] to an index, that index designates
    the first item that is not disabled and whose stored label starts
    with the new search buffer. *)
Theorem search_selects_first_enabled_match h alloc state value i :
  activeItemIndex (dispatch h alloc state (Search value)) = Some i ->
  activeItemIndex state <> Some i ->
  exists k it text,
    i = Z.of_nat k
    /\ items state !! k = Some it
    /\ disabled (h (dataRef it)) = false
    /\ textValue (h (dataRef it)) = Some text
    /\ String.prefix (searchQuery state ++ value) text = true
    /\ forall j jt, (j < k)%nat -> items state !! j = Some jt ->
                    search_hit h (searchQuery state ++ value) jt = false.
Proof.
  unfold_reducer reduce_Search.
  match goal with |- context [findIndex ?q (items state)] =>
    destruct (findIndex_cases q (items state))
      as [[-> _]|(k & x & -> & Hk & Hx & Hfirst)] end.
  - simpl. intros Hres Hchanged. by destruct Hchanged.
  - destruct (Z.eqb_spec (Z.of_nat k) (-1)) as [|_]; [lia|]. simpl.
    case_bool_decide as Hsame; simpl; intros Hres Hchanged;
      [by destruct Hchanged|].
    injection Hres as <-.
    apply search_hit_spec in Hx as (text & Htext & Hprefix & Hen).
    by exists k, x, text.
Qed.

(** Over alice, bob, charlie with nothing active, typing [c] selects
    charlie. *)
Lemma search_selects_first_enabled_match_witness :
  exists k it text,
    2 = Z.of_nat k
    /\ items state_names !! k = Some it
    /\ disabled (heap_names (dataRef it)) = false
    /\ textValue (heap_names (dataRef it)) = Some text
    /\ String.prefix (searchQuery state_names ++ "c") text = true
    /\ forall j jt, (j < k)%nat -> items state_names !! j = Some jt ->
                    search_hit heap_names (searchQuery state_names ++ "c") jt
                    = false.
Proof.
  refine (search_selects_first_enabled_match heap_names 3 state_names "c"
            2 _ _).
  - reflexivity.
  - discriminate.
Defined.

(** ** Repeating a [GoToItem] *)

(** The resolver reads the items and the active index, nothing else. *)
Lemma calculateActiveItemIndex_ext h state state' focus target :
  items state' = items state ->
  activeItemIndex state' = activeItemIndex state ->
  calculateActiveItemIndex h state' focus target
  = calculateActiveItemIndex h state focus target.
Proof.
  intros Hitems Hactive. unfold calculateActiveItemIndex.
  by rewrite Hitems, Hactive.
Qed.

Lemma dispatch_GoToItem_settled h alloc state focus target :
  calculateActiveItemIndex h state focus target = activeItemIndex state ->
  searchQuery (dispatch h alloc state (GoToItem focus target))
  = EmptyString
  /\ previousActiveIndex (dispatch h alloc state (GoToItem focus target))
     = activeItemIndex state
  /\ activeItemIndex (dispatch h alloc state (GoToItem focus target))
     = activeItemIndex state
  /\ items (dispatch h alloc state (GoToItem focus target)) = items state.
Proof.
  intros Hres. unfold_reducer reduce_GoToItem. rewrite Hres.
  destruct (bool_decide_reflect (searchQuery state = EmptyString));
    simpl; [|done].
  destruct (bool_decide_reflect
              (previousActiveIndex state = activeItemIndex state));
    simpl; [|done].
  by rewrite bool_decide_eq_true_2.
Qed.

(** X5: the redundant-update check takes effect from the second press
    on.  When a [GoToItem] resolves to the current active index (as arrow
    down on the last enabled item does), the state it returns is such
    that the same [GoToItem] dispatched again returns that very state
    object. *)
Theorem goto_repeated_returns_same_state h alloc1 alloc2 state focus target :
  calculateActiveItemIndex h state focus target = activeItemIndex state ->
  stateReducer h alloc2 (dispatch h alloc1 state (GoToItem focus target))
    (GoToItem focus target) = SameState.
Proof.
  intros Hres.
  destruct (dispatch_GoToItem_settled h alloc1 state focus target Hres)
    as (Hq & Hprev & Hact & Hitems).
  unfold stateReducer, match_, reducers, reduce_GoToItem.
  rewrite (calculateActiveItemIndex_ext h state) by done.
  rewrite Hq, Hprev, Hact, Hres.
  by rewrite !bool_decide_eq_true_2.
Qed.

(** With [c] active among [a], [b], [c] and a search buffer in progress,
    the first arrow down builds a new state and the second returns it
    unchanged. *)
Lemma goto_repeated_returns_same_state_witness :
  stateReducer heap_names 5
    (dispatch heap_names 4
       (dispatch heap_names 3 state_names (Search "c"))
       (GoToItem NextItem None))
    (GoToItem NextItem None) = SameState.
Proof.
  refine (goto_repeated_returns_same_state heap_names 4 5
            (dispatch heap_names 3 state_names (Search "c"))
            NextItem None _).
  reflexivity.
Defined.

(** For the intents that do not depend on where the active index is, a
    state that already holds the answer gets the same answer. *)
Lemma resolve_absolute_stable h state state' focus target :
  focus = FirstItem \/ focus = LastItem \/ focus = SpecificItem
  \/ focus = Nothing ->
  items state' = items state ->
  activeItemIndex state'
  = calculateActiveItemIndex h state focus target ->
  calculateActiveItemIndex h state' focus target
  = calculateActiveItemIndex h state focus target.
Proof.
  intros Hfocus Hitems. unfold calculateActiveItemIndex, match_.
  rewrite Hitems. destruct (len (items state) <=? 0); [done|].
  destruct Hfocus as [-> | [-> | [-> | ->]]];
    try (case_bool_decide; [intros ->|]; done).
Qed.

(** X6: [GoToItem] with [FirstItem], [LastItem], [SpecificItem] or
    [Nothing] is idempotent on the active index: dispatched twice in a
    row it leaves the active index where the first dispatch put it, and a
    third dispatch returns the state object of the second. *)
Theorem goto_absolute_idempotent h alloc1 alloc2 alloc3 state focus target :
  focus = FirstItem \/ focus = LastItem \/ focus = SpecificItem
  \/ focus = Nothing ->
  activeItemIndex
    (dispatch h alloc2 (dispatch h alloc1 state (GoToItem focus target))
       (GoToItem focus target))
  = activeItemIndex (dispatch h alloc1 state (GoToItem focus target))
  /\ stateReducer h alloc3
       (dispatch h alloc2 (dispatch h alloc1 state (GoToItem focus target))
          (GoToItem focus target))
       (GoToItem focus target) = SameState.
Proof.
  intros Hfocus.
  assert (calculateActiveItemIndex h
            (dispatch h alloc1 state (GoToItem focus target)) focus target
          = activeItemIndex
              (dispatch h alloc1 state (GoToItem focus target))) as Hfix.
  { rewrite (dispatch_GoToItem_active h alloc1).
    apply resolve_absolute_stable; [done| |].
    - by destruct (dispatch_GoToItem_frame h alloc1 state focus target).
    - apply dispatch_GoToItem_active. }
  split.
  - by rewrite (dispatch_GoToItem_active h alloc2).
  - destruct (dispatch_GoToItem_settled h alloc2 _ focus target Hfix)
      as (Hq & Hprev & Hact & Hitems).
    unfold stateReducer, match_, reducers, reduce_GoToItem.
    rewrite (calculateActiveItemIndex_ext h
               (dispatch h alloc1 state (GoToItem focus target))) by done.
    rewrite Hq, Hprev, Hact, Hfix.
    by rewrite !bool_decide_eq_true_2.
Qed.

(** Pressing Home three times over [a], [b], [c] with [c] active: the
    second press keeps index 0 and the third returns the same state. *)
Lemma goto_absolute_idempotent_witness :
  activeItemIndex
    (dispatch heap_all_enabled 5
       (dispatch heap_all_enabled 4 state_abc_last (GoToItem FirstItem None))
       (GoToItem FirstItem None))
  = Some 0
  /\ stateReducer heap_all_enabled 6
       (dispatch heap_all_enabled 5
          (dispatch heap_all_enabled 4 state_abc_last
             (GoToItem FirstItem None))
          (GoToItem FirstItem None))
       (GoToItem FirstItem None) = SameState.
Proof.
  refine (goto_absolute_idempotent heap_all_enabled 4 5 6 state_abc_last
            FirstItem None _).
  by left.
Defined.

(** X7: navigation resets the type-ahead: whatever the search buffer
    held, it is empty after a [GoToItem], so that a [Search] dispatched
    next starts the buffer afresh with its own value. *)
Theorem goto_resets_search_buffer h alloc1 alloc2 state focus target value :
  searchQuery (dispatch h alloc1 state (GoToItem focus target))
  = EmptyString
  /\ searchQuery
       (dispatch h alloc2 (dispatch h alloc1 state (GoToItem focus target))
          (Search value))
     = value.
Proof.
  destruct (dispatch_GoToItem_frame h alloc1 state focus target)
    as (_ & _ & Hq).
  split; [done|].
  destruct (dispatch_Search_frame h alloc2
              (dispatch h alloc1 state (GoToItem focus target)) value)
    as [_ ->].
  by rewrite Hq.
Qed.

(** ** What an action leaves alone *)

(** X8: each field of the state has its own actions.  [menuState] changes
    only under [ToggleMenu], [OpenMenu] and [CloseMenu]; the items only
    under [RegisterItem] and [UnregisterItem]; [activeItemIndex] only
    under [GoToItem], [Search] and [UnregisterItem]; the search buffer
    only under [GoToItem], [Search] and [ClearSearch]; either handle only
    under its own setter. *)
Theorem dispatch_changes_only_own_fields h alloc state action :
  (menuState (dispatch h alloc state action) <> menuState state ->
   action = ToggleMenu \/ action = OpenMenu \/ action = CloseMenu)
  /\ (items (dispatch h alloc state action) <> items state ->
      (exists ident ref, action = RegisterItem ident ref)
      \/ exists ident, action = UnregisterItem ident)
  /\ (activeItemIndex (dispatch h alloc state action)
      <> activeItemIndex state ->
      (exists focus target, action = GoToItem focus target)
      \/ (exists value, action = Search value)
      \/ exists ident, action = UnregisterItem ident)
  /\ (searchQuery (dispatch h alloc state action) <> searchQuery state ->
      (exists focus target, action = GoToItem focus target)
      \/ (exists value, action = Search value)
      \/ action = ClearSearch)
  /\ (buttonRef (dispatch h alloc state action) <> buttonRef state ->
      exists ref, action = SetButtonRef ref)
  /\ (itemsRef (dispatch h alloc state action) <> itemsRef state ->
      exists ref, action = SetItemsRef ref).
Proof.
  destruct action; unfold_dispatch;
    try unfold reduce_GoToItem; try unfold reduce_Search;
    try destruct (_ && _); try destruct (_ || _); simpl;
    repeat split; intros Hchanged; try done; eauto 6.
Qed.

(** X9: only [GoToItem] can return the state object it was given, and it
    does so only when the search buffer is empty, [previousActiveIndex]
    equals [activeItemIndex] and the resolver answers the current active
    index; every other action returns a new state object, even when no
    field differs. *)
Theorem same_state_only_from_goto h alloc state action :
  stateReducer h alloc state action = SameState ->
  exists focus target,
    action = GoToItem focus target
    /\ searchQuery state = EmptyString
    /\ previousActiveIndex state = activeItemIndex state
    /\ calculateActiveItemIndex h state focus target
       = activeItemIndex state.
Proof.
  destruct action; unfold stateReducer, match_, reducers; try done.
  - unfold reduce_GoToItem.
    destruct (bool_decide_reflect (searchQuery state = EmptyString));
      simpl; [|done].
    destruct (bool_decide_reflect
                (previousActiveIndex state = activeItemIndex state));
      simpl; [|done].
    case_bool_decide; simpl; [|done].
    intros _. by exists focus, target.
  - unfold reduce_Search. by destruct (_ || _).
Qed.

(** Arrow down on the last of [a], [b], [c], once the state has settled,
    is one such dispatch. *)
Lemma same_state_only_from_goto_witness :
  exists focus target,
    GoToItem NextItem None = GoToItem focus target
    /\ searchQuery
         (dispatch heap_all_enabled 4 state_abc_last
            (GoToItem NextItem None)) = EmptyString
    /\ previousActiveIndex
         (dispatch heap_all_enabled 4 state_abc_last
            (GoToItem NextItem None))
       = activeItemIndex
           (dispatch heap_all_enabled 4 state_abc_last
              (GoToItem NextItem None))
    /\ calculateActiveItemIndex heap_all_enabled
         (dispatch heap_all_enabled 4 state_abc_last
            (GoToItem NextItem None)) focus target
       = activeItemIndex
           (dispatch heap_all_enabled 4 state_abc_last
              (GoToItem NextItem None)).
Proof.
  refine (same_state_only_from_goto heap_all_enabled 5
            (dispatch heap_all_enabled 4 state_abc_last
               (GoToItem NextItem None))
            (GoToItem NextItem None) _).
  reflexivity.
Defined.

(** X10: [ToggleMenu] is an involution: two toggles in a row give back a
    state equal to the first one in every field; on a closed menu it acts
    as [OpenMenu], on an open one as [CloseMenu]. *)
Theorem toggle_menu_involution h alloc1 alloc2 state :
  dispatch h alloc2 (dispatch h alloc1 state ToggleMenu) ToggleMenu = state
  /\ (menuState state = Closed ->
      dispatch h alloc1 state ToggleMenu = dispatch h alloc1 state OpenMenu)
  /\ (menuState state = Open ->
      dispatch h alloc1 state ToggleMenu
      = dispatch h alloc1 state CloseMenu).
Proof.
  destruct state as [[] ? ? ? ? ? ?]; unfold_dispatch; simpl;
    unfold match_; simpl; by repeat split.
Qed.

(** ** Registration *)

Lemma dispatch_RegisterItem_unregister h alloc1 alloc2 state ident ref :
  active_index_valid state ->
  NoDup (items state) ->
  (forall k it, items state !! k = Some it -> id it <> ident) ->
  items (dispatch h alloc2
           (dispatch h alloc1 state (RegisterItem ident ref))
           (UnregisterItem ident)) = items state
  /\ activeItemIndex
       (dispatch h alloc2
          (dispatch h alloc1 state (RegisterItem ident ref))
          (UnregisterItem ident)) = activeItemIndex state.
Proof.
  intros Hvalid Hnd Habsent.
  unfold_dispatch. simpl. unfold reduce_UnregisterItem. simpl.
  set (new := {| item_obj := alloc1; id := ident; dataRef := ref |}).
  assert (findIndex (fun a (_ : Z) (_ : list Item) =>
                       bool_decide (id a = ident)) (items state ++ [new])
          = Z.of_nat (length (items state))) as ->.
  { apply (findIndex_found _ _ (length (items state)) new).
    - by rewrite lookup_app_r, Nat.sub_diag.
    - by apply bool_decide_eq_true_2.
    - intros j jt Hj Hjt. rewrite lookup_app_l in Hjt by done.
      apply bool_decide_eq_false_2. by eapply Habsent. }
  destruct (Z.eqb_spec (Z.of_nat (length (items state))) (-1)) as [|_];
    [lia|]. simpl.
  unfold splice1. rewrite Nat2Z.id, delete_middle, app_nil_r.
  split; [done|].
  unfold active_index_valid, len in Hvalid.
  destruct (activeItemIndex state) as [i|] eqn:Hact;
    [|by rewrite bool_decide_eq_false_2].
  rewrite bool_decide_eq_false_2 by (intros [=]; lia).
  assert (exists it, items state !! Z.to_nat i = Some it) as [it Hit].
  { apply lookup_lt_is_Some. lia. }
  assert (at_index (items state ++ [new]) i = Some it) as ->.
  { replace i with (Z.of_nat (Z.to_nat i)) by lia.
    rewrite at_index_nat, lookup_app_l; [done|lia]. }
  rewrite (indexOf_NoDup _ (Z.to_nat i)) by done.
  f_equal. lia.
Qed.

(** X11: registering an item under an id that no item has and
    unregistering that id again is a round trip on a reachable state: the
    items and the active index are what they were. *)
Theorem register_unregister_round_trip
    h alloc1 alloc2 state ident ref :
  reachable state ->
  (forall k it, items state !! k = Some it -> id it <> ident) ->
  items (dispatch h alloc2
           (dispatch h alloc1 state (RegisterItem ident ref))
           (UnregisterItem ident)) = items state
  /\ activeItemIndex
       (dispatch h alloc2
          (dispatch h alloc1 state (RegisterItem ident ref))
          (UnregisterItem ident)) = activeItemIndex state.
Proof.
  intros Hr Habsent. apply dispatch_RegisterItem_unregister; [| |done].
  - by apply reachable_valid.
  - eapply NoDup_fmap_1. by apply reachable_items_NoDup.
Qed.

(** Registering and unregistering [d] beside [a], [b], [c] with [c]
    active. *)
Lemma register_unregister_round_trip_witness :
  items (dispatch heap_all_enabled 5
           (dispatch heap_all_enabled 4 state_abc_last
              (RegisterItem "d" 3%nat))
           (UnregisterItem "d")) = items state_abc_last
  /\ activeItemIndex
       (dispatch heap_all_enabled 5
          (dispatch heap_all_enabled 4 state_abc_last
             (RegisterItem "d" 3%nat))
          (UnregisterItem "d")) = activeItemIndex state_abc_last.
Proof.
  refine (register_unregister_round_trip heap_all_enabled 4 5
            state_abc_last "d" 3%nat _ _).
  - apply run_from_default_reachable.
  - intros k it Hk. destruct k as [|[|[|k]]]; cbv in Hk; by simplify_eq.
Defined.

Lemma filter_keeps_all {A} (P : A -> Prop) `{forall x, Decision (P x)}
    (l : list A) :
  (forall k x, l !! k = Some x -> P x) -> filter P l = l.
Proof.
  induction l as [|y l IH]; intros Hall; [done|].
  rewrite filter_cons_True by apply (Hall 0%nat y eq_refl).
  f_equal. apply IH. intros k x Hk. by apply (Hall (S k)).
Qed.

Lemma delete_is_filter_id (l : list Item) ident k it :
  NoDup (id <$> l) ->
  l !! k = Some it ->
  id it = ident ->
  delete k l = filter (fun x => id x <> ident) l.
Proof.
  revert k. induction l as [|y l IH]; intros k Hnd Hk Hid; [done|].
  rewrite fmap_cons in Hnd. apply NoDup_cons in Hnd as [Hy Hnd].
  destruct k as [|k]; simpl in Hk.
  - injection Hk as ->. simpl.
    rewrite filter_cons_False by (intros Hne; by apply Hne).
    symmetry. apply filter_keeps_all. intros j x Hj Hsame.
    apply Hy. rewrite Hid, <- Hsame.
    apply list_elem_of_fmap. exists x. split; [done|].
    by eapply list_elem_of_lookup_2.
  - assert (id y <> ident) as Hne.
    { intros Hsame. apply Hy. rewrite Hsame, <- Hid.
      apply list_elem_of_fmap. exists it. split; [done|].
      by eapply list_elem_of_lookup_2. }
    simpl. rewrite filter_cons_True by done. f_equal. by apply IH.
Qed.

(** X12: in a state whose item ids are pairwise distinct, [UnregisterItem]
    leaves exactly the items with another id, in their order; no item of
    the given id remains and an id that no item has removes nothing. *)
Theorem unregister_filters_by_id h alloc state ident :
  NoDup (id <$> items state) ->
  items (dispatch h alloc state (UnregisterItem ident))
  = filter (fun it => id it <> ident) (items state).
Proof.
  intros Hnd. unfold_reducer reduce_UnregisterItem. simpl.
  match goal with |- context [findIndex ?q (items state)] =>
    destruct (findIndex_cases q (items state))
      as [[-> Hall]|(k & x & -> & Hk & Hx & _)] end.
  - simpl. symmetry. apply filter_keeps_all. intros k x Hk.
    specialize (Hall k x Hk). by apply bool_decide_eq_false_1 in Hall.
  - destruct (Z.eqb_spec (Z.of_nat k) (-1)) as [|_]; [lia|]. simpl.
    unfold splice1. rewrite Nat2Z.id.
    apply bool_decide_eq_true_1 in Hx.
    by apply (delete_is_filter_id _ ident k x).
Qed.

(** Unregistering [b] from [a], [b], [c]. *)
Lemma unregister_filters_by_id_witness :
  items (dispatch heap_all_enabled 4 state_abc_last (UnregisterItem "b"))
  = filter (fun it => id it <> "b"%string) (items state_abc_last).
Proof.
  refine (unregister_filters_by_id heap_all_enabled 4 state_abc_last "b" _).
  refine (bool_decide_unpack (NoDup _) _). vm_compute. exact I.
Defined.

(** ** The handlers *)

(** X13: on a reachable state the Enter key on the item list never reads
    a property of [undefined]: the handler returns, dispatches
    [CloseMenu] and nothing else, and schedules a click on the element of
    the active item exactly when an item is active. *)
Theorem items_enter_key_completes state shift :
  reachable state ->
  (Items_handleKeyDown state (mkKey Key_Enter shift)).2 = Normal
  /\ now_actions (Items_handleKeyDown state (mkKey Key_Enter shift)).1
     = [CloseMenu]
  /\ (activeItemIndex state = None ->
      (Items_handleKeyDown state (mkKey Key_Enter shift)).1
      = [Now DisposeSearch; Now (Dispatch CloseMenu)])
  /\ (forall i, activeItemIndex state = Some i ->
      exists it,
        at_index (items state) i = Some it
        /\ (Items_handleKeyDown state (mkKey Key_Enter shift)).1
           = [Now DisposeSearch; Now (Dispatch CloseMenu);
              NextFrame [ClickElement (id it)]]).
Proof.
  intros Hvalid%reachable_valid. unfold active_index_valid in Hvalid.
  unfold Items_handleKeyDown. simpl.
  destruct (activeItemIndex state) as [i|]; [|by repeat split].
  assert (exists it, items state !! Z.to_nat i = Some it) as [it Hit].
  { apply lookup_lt_is_Some. unfold len in Hvalid. lia. }
  assert (at_index (items state) i = Some it) as Hat.
  { rewrite <- Hit, <- at_index_nat. f_equal. lia. }
  rewrite Hat. split; [done|]. split; [done|]. split; [done|].
  intros ? [= <-]. by exists it.
Qed.

(** Enter on [a], [b], [c] with [c] active clicks [c]. *)
Lemma items_enter_key_completes_witness :
  (Items_handleKeyDown state_abc_last (mkKey Key_Enter false)).2 = Normal
  /\ now_actions
       (Items_handleKeyDown state_abc_last (mkKey Key_Enter false)).1
     = [CloseMenu]
  /\ (activeItemIndex state_abc_last = None ->
      (Items_handleKeyDown state_abc_last (mkKey Key_Enter false)).1
      = [Now DisposeSearch; Now (Dispatch CloseMenu)])
  /\ (forall i, activeItemIndex state_abc_last = Some i ->
      exists it,
        at_index (items state_abc_last) i = Some it
        /\ (Items_handleKeyDown state_abc_last (mkKey Key_Enter false)).1
           = [Now DisposeSearch; Now (Dispatch CloseMenu);
              NextFrame [ClickElement (id it)]]).
Proof.
  apply (items_enter_key_completes state_abc_last false).
  apply run_from_default_reachable.
Defined.

(** X14: on a reachable state the [active] flag of an item never fails to
    evaluate, and it agrees with [aria-activedescendant]: the attribute
    is absent exactly when nothing is active, and it names an id exactly
    when the item of that id renders as active.  With pairwise distinct
    ids, the item at a position renders as active exactly when that
    position is the active index. *)
Theorem item_active_agrees_with_activedescendant state :
  reachable state ->
  (forall ident, Item_active state ident <> None)
  /\ (Items_activedescendant state = None <-> activeItemIndex state = None)
  /\ (forall ident,
        Items_activedescendant state = Some ident
        <-> Item_active state ident = Some true)
  /\ (NoDup (id <$> items state) ->
      forall k it, items state !! k = Some it ->
        (Item_active state (id it) = Some true
         <-> activeItemIndex state = Some (Z.of_nat k))).
Proof.
  intros Hvalid%reachable_valid. unfold active_index_valid in Hvalid.
  unfold Item_active, Items_activedescendant.
  destruct (activeItemIndex state) as [i|].
  - assert (exists it, items state !! Z.to_nat i = Some it) as [ai Hai].
    { apply lookup_lt_is_Some. unfold len in Hvalid. lia. }
    assert (at_index (items state) i = Some ai) as ->.
    { rewrite <- Hai, <- at_index_nat. f_equal. lia. }
    split; [done|]. split; [done|]. split.
    + intros ident. simpl. split.
      * intros [= <-]. by rewrite bool_decide_eq_true_2.
      * intros [= Hsame%bool_decide_eq_true_1]. by rewrite Hsame.
    + intros Hnd k it Hk. split.
      * intros [= Hsame%bool_decide_eq_true_1].
        assert (Z.to_nat i = k) as <-; [|f_equal; lia].
        apply (NoDup_lookup (id <$> items state) _ _ (id it) Hnd);
          rewrite list_lookup_fmap.
        -- rewrite Hai. simpl. by rewrite Hsame.
        -- by rewrite Hk.
      * intros [= ->]. rewrite Nat2Z.id in Hai.
        f_equal. apply bool_decide_eq_true_2. congruence.
  - split; [done|]. split; [done|]. split; [done|].
    intros _ k it _. done.
Qed.

(** On [a], [b], [c] with [c] active, the attribute names [c]. *)
Lemma item_active_agrees_with_activedescendant_witness :
  Items_activedescendant state_abc_last = Some "c"%string
  <-> Item_active state_abc_last "c" = Some true.
Proof.
  refine (proj1 (proj2 (proj2
            (item_active_agrees_with_activedescendant state_abc_last _)))
            "c"%string).
  apply run_from_default_reachable.
Defined.

(** ** Typing on the item list *)

Lemma append_cons (d : ascii) (q rest : string) :
  (String d q ++ rest)%string = String d (q ++ rest)%string.
Proof. reflexivity. Qed.

Lemma append_snoc_assoc (q : string) (c : ascii) (rest : string) :
  ((q ++ String c EmptyString) ++ rest)%string
  = (q ++ String c rest)%string.
Proof.
  induction q as [|d q IH]; [done|]. by rewrite !append_cons, IH.
Qed.

Lemma append_empty_r (q : string) : (q ++ EmptyString)%string = q.
Proof. induction q as [|d q IH]; [done|]. by rewrite append_cons, IH. Qed.

(** The key of a single character: a space does nothing, any other
    character is searched for. *)
Lemma Items_handleKeyDown_char state (c : ascii) :
  Items_handleKeyDown state (mkKey (String c EmptyString) false)
  = if Ascii.eqb c " "%char then ([Now DisposeSearch], Normal)
    else ([Now DisposeSearch;
           Now (Dispatch (Search (String c EmptyString)));
           SetTimeout [Dispatch ClearSearch] 350], Normal).
Proof.
  unfold Items_handleKeyDown, Key_Enter, Key_Space, Key_ArrowDown,
    Key_ArrowUp, Key_ArrowRight, Key_ArrowLeft, Key_Home, Key_End,
    Key_Escape, Key_Tab.
  cbn [key shiftKey].
  destruct (Ascii.eqb_spec c " ") as [->|Hc]; [reflexivity|].
  repeat match goal with
         | |- context [String.eqb ?a ?b] =>
             destruct (String.eqb_spec a b) as [E|_]; [congruence|]
         end.
  reflexivity.
Qed.

Lemma dispatch_Search_menuState h alloc state value :
  menuState (dispatch h alloc state (Search value)) = menuState state.
Proof. unfold_reducer reduce_Search. by destruct (_ || _). Qed.

Lemma keyDown_all_word_cons h (c : ascii) (rest : string) state :
  keyDown_all h (word (String c rest)) state
  = keyDown_all h (word rest)
      (if Ascii.eqb c " "%char then state
       else dispatch h 0 state (Search (String c EmptyString))).
Proof.
  unfold word. simpl. rewrite Items_handleKeyDown_char.
  by destruct (Ascii.eqb c " ").
Qed.

(** X15: typing a text on the item list, one key per character as
    [word] produces them and with no timer firing in between, appends the
    text without its spaces to the search buffer: the space key is
    swallowed by the handler.  The items and [menuState] stay. *)
Theorem keyDown_word_search_buffer h input : forall state,
  searchQuery (keyDown_all h (word input) state)
  = (searchQuery state ++ without_spaces input)%string
  /\ items (keyDown_all h (word input) state) = items state
  /\ menuState (keyDown_all h (word input) state) = menuState state.
Proof.
  induction input as [|c rest IH]; intros state.
  - simpl. by rewrite append_empty_r.
  - rewrite keyDown_all_word_cons. simpl.
    destruct (Ascii.eqb c " "); [apply IH|].
    destruct (IH (dispatch h 0 state (Search (String c EmptyString))))
      as (-> & -> & ->).
    destruct (dispatch_Search_frame h 0 state (String c EmptyString))
      as [-> ->].
    by rewrite append_snoc_assoc, dispatch_Search_menuState.
Qed.

Lemma keyDown_all_only_spaces h input : forall state,
  without_spaces input = EmptyString ->
  keyDown_all h (word input) state = state.
Proof.
  induction input as [|c rest IH]; intros state; [done|].
  rewrite keyDown_all_word_cons. simpl.
  destruct (Ascii.eqb c " "); [apply IH|done].
Qed.

(** X16: typing a whole text selects its first match: when, after the
    text without its spaces has been appended to the search buffer, some
    item that is not disabled has a stored label starting with the
    buffer, the first such item is the active one at the end, whatever
    the intermediate prefixes selected. *)
Theorem keyDown_word_selects_first_match h input : forall state k it,
  without_spaces input <> EmptyString ->
  items state !! k = Some it ->
  search_hit h (searchQuery state ++ without_spaces input) it = true ->
  (forall j jt, (j < k)%nat -> items state !! j = Some jt ->
     search_hit h (searchQuery state ++ without_spaces input) jt = false) ->
  activeItemIndex (keyDown_all h (word input) state) = Some (Z.of_nat k).
Proof.
  induction input as [|c rest IH]; intros state k it Hne Hk Hhit Hfirst;
    [done|].
  rewrite keyDown_all_word_cons. simpl in Hne, Hhit, Hfirst.
  destruct (Ascii.eqb c " "); [by eapply IH|].
  destruct (dispatch_Search_frame h 0 state (String c EmptyString))
    as [Hitems Hq].
  destruct (decide (without_spaces rest = EmptyString)) as [E|Hrest].
  - rewrite keyDown_all_only_spaces by done.
    rewrite E in Hhit, Hfirst.
    by apply (dispatch_Search_hit _ _ _ _ k it).
  - apply (IH _ k it Hrest).
    + by rewrite Hitems.
    + by rewrite Hq, append_snoc_assoc.
    + intros j jt Hj Hjt. rewrite Hq, append_snoc_assoc.
      rewrite Hitems in Hjt. by eapply Hfirst.
Qed.

(** Typing [char] over alice, bob, charlie selects charlie. *)
Lemma keyDown_word_selects_first_match_witness :
  activeItemIndex (keyDown_all heap_names (word "char") state_names)
  = Some 2.
Proof.
  refine (keyDown_word_selects_first_match heap_names "char" state_names
            2%nat (mkItem 2%nat "c" 2%nat) _ _ _ _).
  - discriminate.
  - reflexivity.
  - reflexivity.
  - intros j jt Hj Hjt.
    destruct j as [|[|j]]; [| |lia]; cbv in Hjt; by simplify_eq.
Defined.

(** ** Keys and pointer *)

(** What a key on the item list dispatches before the handler returns:
    nothing, [CloseMenu] for Enter, Escape and Tab, a [GoToItem] without
    id, or a [Search] for the key. *)
Lemma Items_handleKeyDown_actions state event :
  now_actions (Items_handleKeyDown state event).1 = []
  \/ (now_actions (Items_handleKeyDown state event).1 = [CloseMenu]
      /\ (key event = Key_Enter \/ key event = Key_Escape
          \/ key event = Key_Tab))
  \/ (exists focus,
        now_actions (Items_handleKeyDown state event).1
        = [GoToItem focus None])
  \/ now_actions (Items_handleKeyDown state event).1
     = [Search (key event)].
Proof.
  unfold Items_handleKeyDown.
  repeat match goal with
         | |- context [String.eqb ?a ?b] =>
             destruct (String.eqb_spec a b) as [E|_]
         end;
    try (by left);
    try (right; right; left; by eexists).
  - destruct (activeItemIndex state) as [i|];
      [destruct (at_index (items state) i)|]; right; left; by auto.
  - right; left. by auto.
  - destruct (shiftKey event); right; left; by auto.
  - destruct (String.length (key event) =? 1)%nat; [|by left].
    by right; right; right.
Qed.

(** X17: a key on the item list never opens the menu and never changes
    the items: after the dispatches of the handler the items are the
    same, and [menuState] is what it was or [Closed], the latter change
    only for Enter, Escape and Tab. *)
Theorem items_key_never_opens h state event :
  items (run h 0 (now_actions (Items_handleKeyDown state event).1) state)
  = items state
  /\ (menuState
        (run h 0 (now_actions (Items_handleKeyDown state event).1) state)
      = menuState state
      \/ menuState
           (run h 0 (now_actions (Items_handleKeyDown state event).1) state)
         = Closed)
  /\ (menuState
        (run h 0 (now_actions (Items_handleKeyDown state event).1) state)
      <> menuState state ->
      key event = Key_Enter \/ key event = Key_Escape
      \/ key event = Key_Tab).
Proof.
  destruct (Items_handleKeyDown_actions state event)
    as [->|[[-> Hkey]|[[focus ->]| ->]]]; simpl.
  - by repeat split; [left|].
  - by repeat split; [right|].
  - destruct (dispatch_GoToItem_frame h 0 state focus None)
      as (-> & -> & _).
    by repeat split; [left|].
  - destruct (dispatch_Search_frame h 0 state (key event)) as [-> _].
    rewrite dispatch_Search_menuState.
    by repeat split; [left|].
Qed.

Lemma resolve_nothing h state target :
  calculateActiveItemIndex h state Nothing target = None.
Proof.
  unfold calculateActiveItemIndex, match_.
  by destruct (len (items state) <=? 0).
Qed.

(** X18: the pointer over an item.  A disabled item dispatches nothing
    when the pointer enters or leaves it; for an item that is not
    disabled, entering makes the first item registered under its id the
    active one and leaving makes no item active. *)
Theorem item_pointer_enter_leave h alloc state ident :
  Item_handlePointerEnter true ident = []
  /\ Item_handlePointerLeave true = []
  /\ (forall k it,
        items state !! k = Some it ->
        id it = ident ->
        (forall j jt, (j < k)%nat -> items state !! j = Some jt ->
                      id jt <> ident) ->
        activeItemIndex
          (run h alloc (now_actions (Item_handlePointerEnter false ident))
             state) = Some (Z.of_nat k))
  /\ activeItemIndex
       (run h alloc (now_actions (Item_handlePointerLeave false)) state)
     = None.
Proof.
  split; [done|]. split; [done|]. simpl. split.
  - intros k it Hk Hid Hfirst. rewrite dispatch_GoToItem_active.
    by apply (resolve_specific_found _ _ _ k it).
  - by rewrite dispatch_GoToItem_active, resolve_nothing.
Qed.

Lemma dispatch_OpenMenu_then_goto h alloc1 alloc2 state focus target :
  menuState
    (dispatch h alloc2 (dispatch h alloc1 state OpenMenu)
       (GoToItem focus target)) = Open
  /\ activeItemIndex
       (dispatch h alloc2 (dispatch h alloc1 state OpenMenu)
          (GoToItem focus target))
     = calculateActiveItemIndex h state focus target.
Proof.
  destruct (dispatch_GoToItem_frame h alloc2
              (dispatch h alloc1 state OpenMenu) focus target)
    as (_ & -> & _).
  split; [done|]. rewrite dispatch_GoToItem_active.
  by apply calculateActiveItemIndex_ext.
Qed.

(** X19: the keys on the button.  When nothing else is dispatched before
    the next frame, Space, Enter and arrow down leave the menu open with
    the first item that is not disabled active, and arrow up leaves it
    open with the last such item active; every other key has no effect
    at all. *)
Theorem button_keys_open_menu h alloc state event :
  (key event = Key_Space \/ key event = Key_Enter
   \/ key event = Key_ArrowDown ->
   menuState
     (run h alloc (now_actions (Button_handleKeyDown event)
                   ++ frame_actions (Button_handleKeyDown event)) state)
   = Open
   /\ forall k it,
        items state !! k = Some it ->
        disabled (h (dataRef it)) = false ->
        (forall j jt, (j < k)%nat -> items state !! j = Some jt ->
                      disabled (h (dataRef jt)) = true) ->
        activeItemIndex
          (run h alloc (now_actions (Button_handleKeyDown event)
                        ++ frame_actions (Button_handleKeyDown event))
             state) = Some (Z.of_nat k))
  /\
  (key event = Key_ArrowUp ->
   menuState
     (run h alloc (now_actions (Button_handleKeyDown event)
                   ++ frame_actions (Button_handleKeyDown event)) state)
   = Open
   /\ forall k it,
        items state !! k = Some it ->
        disabled (h (dataRef it)) = false ->
        (forall j jt, (k < j)%nat -> items state !! j = Some jt ->
                      disabled (h (dataRef jt)) = true) ->
        activeItemIndex
          (run h alloc (now_actions (Button_handleKeyDown event)
                        ++ frame_actions (Button_handleKeyDown event))
             state) = Some (Z.of_nat k))
  /\
  (key event <> Key_Space -> key event <> Key_Enter ->
   key event <> Key_ArrowDown -> key event <> Key_ArrowUp ->
   Button_handleKeyDown event = []).
Proof.
  split; [|split].
  - intros Hkey.
    assert (Button_handleKeyDown event
            = [Now PreventDefault; Now (Dispatch OpenMenu);
               NextFrame [FocusItems; Dispatch (GoToItem FirstItem None)]])
      as ->.
    { unfold Button_handleKeyDown.
      destruct Hkey as [-> | [-> | ->]]; reflexivity. }
    change (run h alloc _ state)
      with (dispatch h (S alloc) (dispatch h alloc state OpenMenu)
              (GoToItem FirstItem None)).
    destruct (dispatch_OpenMenu_then_goto h alloc (S alloc) state
                FirstItem None) as [-> ->].
    split; [done|]. intros k it. apply resolve_first_found.
  - intros Hkey.
    assert (Button_handleKeyDown event
            = [Now (Dispatch OpenMenu);
               NextFrame [FocusItems; Dispatch (GoToItem LastItem None)]])
      as ->.
    { unfold Button_handleKeyDown. rewrite Hkey. reflexivity. }
    change (run h alloc _ state)
      with (dispatch h (S alloc) (dispatch h alloc state OpenMenu)
              (GoToItem LastItem None)).
    destruct (dispatch_OpenMenu_then_goto h alloc (S alloc) state
                LastItem None) as [-> ->].
    split; [done|]. intros k it. apply resolve_last_found.
  - intros H1 H2 H3 H4. unfold Button_handleKeyDown.
    repeat match goal with
           | |- context [String.eqb ?a ?b] =>
               destruct (String.eqb_spec a b) as [E|_]; [done|]
           end.
    reflexivity.
Qed.

End Menu.
